(** * iso8601: the date-time scanner, the zone parser and the JSON codec

    A shallow embedding of [iso8601.go], [time.go] and [error.go] of
    rickb777/iso8601, with the properties of its specification proved or
    refuted on it.

    Conventions.
    - A Go [[]byte] is a [list byte]; [bval] gives the numeric value of a byte.
    - A Go [int] is a 64-bit two's complement integer, embedded in [Z] with
      the wrap-around of every arithmetic operation written out ([Int.wrap]).
      Counters bounded by the length of the input (loop indices, [digits],
      [nfraction]) cannot overflow and are plain [Z].
    - A Go [rune] is the [Z] of its code point.
    - [(T, error)] results are sums [Error + T]. *)

From Stdlib Require Import ZArith List Bool Lia.
From Stdlib Require Import Strings.String Strings.Byte.
Import ListNotations.
Open Scope Z_scope.

(** ** Bytes and machine integers *)

Definition bval (b : byte) : Z := Z.of_N (Byte.to_N b).

Definition bytes (s : string) : list byte := list_byte_of_string s.

Definition len {A} (l : list A) : Z := Z.of_nat (List.length l).

Module Int.

Definition wrap (z : Z) : Z := (z + 2 ^ 63) mod 2 ^ 64 - 2 ^ 63.

Definition add (a b : Z) : Z := wrap (a + b).
Definition mul (a b : Z) : Z := wrap (a * b).
Definition neg (a : Z) : Z := wrap (- a).
Definition quot (a b : Z) : Z := wrap (Z.quot a b).

Definition in_range (z : Z) : Prop := - 2 ^ 63 <= z < 2 ^ 63.

End Int.

(** charStart is the binary position of the character `0` *)
Definition charStart : Z := 48.

Definition isDigit (b : byte) : bool := (48 <=? bval b) && (bval b <=? 57).

(** ** error.go *)

Record RangeError := mkRangeError {
  Value : list byte;
  Element : string;
  Min : Z;
  Max : Z;
  Given : Z
}.

(** The error values of the package: its variables, its error types
    ([ErrRange] holds a [*RangeError]), [InvalidZone] for the variable
    modelled below, and [ErrMarshalYear] for the error that MarshalText and
    MarshalJSON make on the spot for a year outside [0,9999]. *)
Inductive Error :=
| ErrZoneTooShort
| ErrZoneTooLong
| ErrRemainingData
| ErrNotString
| ErrPrecision
| InvalidZone
| UnexpectedCharacterError (Character : Z)
| ErrRange (e : RangeError)
| ErrMarshalYear.

(** Modelled from the spec: [ErrInvalidZone] is returned by ParseISOZone
    and declared outside the files at hand.  The specification has it as
    the Invalid-Zone error of the zone parser, an error value of its own
    beside Zone-Too-Short, Zone-Too-Long and Unexpected-Character. *)
Definition ErrInvalidZone : Error := InvalidZone.

Definition newUnexpectedCharacterError (c : Z) : Error :=
  UnexpectedCharacterError c.

(** ** The host library: locations and UTF-8 decoding

    [time.Location] is either [time.UTC] or the result of
    [time.FixedZone name offset]. *)

Inductive Location :=
| UTC
| FixedZone (name : list byte) (offset : Z).

Definition zoneOffset (l : Location) : Z :=
  match l with
  | UTC => 0
  | FixedZone _ o => o
  end.

Definition RuneError : Z := 65533.

(** [utf8.DecodeRune]: the first rune of [p] and its width in bytes.  An
    empty input gives [(RuneError, 0)], an invalid encoding
    [(RuneError, 1)]. *)
Definition DecodeRune (p : list byte) : Z * Z :=
  match p with
  | [] => (RuneError, 0)
  | b0 :: t =>
    let p0 := bval b0 in
    let cont (x : Z) := (128 <=? x) && (x <=? 191) in
    let low6 (x : Z) := Z.land x 63 in
    if p0 <? 128 then (p0, 1)
    else if (p0 <? 194) || (244 <? p0) then (RuneError, 1)
    else
      let sz := if p0 <? 224 then 2 else if p0 <? 240 then 3 else 4 in
      let lo := if p0 =? 224 then 160 else if p0 =? 240 then 144 else 128 in
      let hi := if p0 =? 237 then 159 else if p0 =? 244 then 143 else 191 in
      if len p <? sz then (RuneError, 1)
      else
        match t with
        | [] => (RuneError, 1)
        | c1 :: t1 =>
          let b1 := bval c1 in
          if (b1 <? lo) || (hi <? b1) then (RuneError, 1)
          else if sz <=? 2 then
            (Z.lor (Z.shiftl (Z.land p0 31) 6) (low6 b1), 2)
          else
            match t1 with
            | [] => (RuneError, 1)
            | c2 :: t2 =>
              let b2 := bval c2 in
              if negb (cont b2) then (RuneError, 1)
              else if sz <=? 3 then
                (Z.lor (Z.lor (Z.shiftl (Z.land p0 15) 12)
                              (Z.shiftl (low6 b1) 6)) (low6 b2), 3)
              else
                match t2 with
                | [] => (RuneError, 1)
                | c3 :: _ =>
                  let b3 := bval c3 in
                  if negb (cont b3) then (RuneError, 1)
                  else
                    (Z.lor (Z.lor (Z.lor (Z.shiftl (Z.land p0 7) 18)
                                         (Z.shiftl (low6 b1) 12))
                                  (Z.shiftl (low6 b2) 6)) (low6 b3), 4)
                end
            end
        end
  end.

(** [inp[i:]] for an index within bounds. *)
Definition drop {A} (i : Z) (l : list A) : list A := skipn (Z.to_nat i) l.

(** ** ParseISOZone *)

Module Zone.

(** The locals of the loop of ParseISOZone. *)
Record state := mk {
  offset : Z;
  z : Z;
  digits : Z;
  multiplier : Z
}.

Definition init : state :=
  {| offset := 0; z := 0; digits := 0; multiplier := 3600 |}.

(** One iteration of the loop, at index [i] on byte [b] = number[i]. *)
Definition step (i : Z) (st : state) (b : byte) : Error + state :=
  if 2 <? digits st then inl ErrZoneTooLong
  else
    let st1 :=
      if (i =? 2) || (i =? 5) then
        {| offset := Int.add (offset st) (Int.mul (z st) (multiplier st));
           z := 0;
           digits := 0;
           multiplier := Int.quot (multiplier st) 60 |}
      else
        {| offset := offset st;
           z := Int.mul (z st) 10;
           digits := digits st;
           multiplier := multiplier st |} in
    if isDigit b then
      inr {| offset := offset st1;
             z := Int.add (z st1) (bval b - charStart);
             digits := digits st1 + 1;
             multiplier := multiplier st1 |}
    else if bval b =? 58 then
      if negb (i =? 2) && negb (i =? 5) then
        inl (newUnexpectedCharacterError (bval b))
      else
        inr {| offset := offset st1;
               z := z st1;
               digits := 0;
               multiplier := multiplier st1 |}
    else inl (newUnexpectedCharacterError (bval b)).

(** The loop [for i = 0; i < len(number); i++], from index [i] on. *)
Fixpoint loop (i : Z) (st : state) (number : list byte) : Error + state :=
  match number with
  | [] => inr st
  | b :: tl =>
    match step i st b with
    | inl e => inl e
    | inr st' => loop (i + 1) st' tl
    end
  end.

End Zone.

(** The offset once the loop is over: [offset += z * multiplier]. *)
Definition zoneTotal (st : Zone.state) : Z :=
  Int.add (Zone.offset st) (Int.mul (Zone.z st) (Zone.multiplier st)).

(** ParseISOZone from [var offset int] on: the loop over [number], the
    bytes of [inp] after its sign, and the checks that follow it. *)
Definition zoneResult (neg : bool) (inp number : list byte)
  : Error + Location :=
  match Zone.loop 0 Zone.init number with
  | inl e => inl e
  | inr st =>
    let offset := zoneTotal st in
    if negb (Zone.digits st =? 2) then inl ErrInvalidZone
    else
      let offset := if neg then Int.neg offset else offset in
      if neg && (offset =? 0) then inl ErrInvalidZone
      else inr (FixedZone inp offset)
  end.

Definition ParseISOZone (inp : list byte) : Error + Location :=
  let '(r, i) := DecodeRune inp in
  let signed (neg : bool) : Error + Location :=
    if len inp <? 3 then inl ErrZoneTooShort
    else zoneResult neg inp (drop i inp) in
  if r =? 90 then inr UTC
  else if r =? 43 then signed false
  else if (r =? 45) || (r =? 8722) then signed true
  else if r =? RuneError then inl (newUnexpectedCharacterError 63)
  else inl (newUnexpectedCharacterError r).

(** ** The host library: time values

    [Date year month day hour min sec nsec loc] stands for the value of
    [time.Date] at these arguments.  [time.Date] normalises arguments outside
    their usual ranges; for arguments within them the accessors [Year],
    [Month], ..., [Nanosecond] and [Zone] of the value return the arguments
    unchanged, which is how the fields of a [Time] are read below. *)

Record Time := Date {
  Year : Z;
  Month : Z;
  Day : Z;
  Hour : Z;
  Minute : Z;
  Second : Z;
  Nanosecond : Z;
  Loc : Location
}.

(** The zero value [Time{}]: January 1 of year 1, 00:00:00 UTC. *)
Definition zeroTime : Time := Date 1 1 1 0 0 0 0 UTC.

(** Modelled from the spec: the leap years of [daysIn], by the standard
    Gregorian rule: divisible by 4 and (not by 100 or by 400). *)
Definition isLeap (y : Z) : bool :=
  (Z.rem y 4 =? 0) && (negb (Z.rem y 100 =? 0) || (Z.rem y 400 =? 0)).

(** Modelled from the spec: [daysIn], the length of a month, is called by
    Parse and declared outside the files at hand.  The specification gives
    it as days-in-month(month, year) under the standard Gregorian leap
    rules. *)
Definition daysIn (mo y : Z) : Z :=
  if mo =? 2 then (if isLeap y then 29 else 28)
  else if (mo =? 4) || (mo =? 6) || (mo =? 9) || (mo =? 11) then 30
  else 31.

(** ** Parse *)

(** The cursor [p]: which field the digits being read belong to. *)
Inductive Cursor :=
| year | month | day | hour | minute | second | millisecond.

Definition cursorIndex (p : Cursor) : Z :=
  match p with
  | year => 0 | month => 1 | day => 2 | hour => 3
  | minute => 4 | second => 5 | millisecond => 6
  end.

(** [p++] *)
Definition next (p : Cursor) : Cursor :=
  match p with
  | year => month | month => day | day => hour | hour => minute
  | minute => second | second => millisecond | millisecond => millisecond
  end.

Module Scan.

(** The locals of Parse. *)
Record state := mk {
  Y : Z;
  M : Z;
  d : Z;
  h : Z;
  m : Z;
  s : Z;
  fraction : Z;
  nfraction : Z;
  loc : Location;
  c : Z;
  p : Cursor
}.

Definition init : state :=
  {| Y := 0; M := 0; d := 0; h := 0; m := 0; s := 0;
     fraction := 0; nfraction := 1; loc := UTC; c := 0; p := year |}.

Definition setY (st : state) (v : Z) : state :=
  mk v (M st) (d st) (h st) (m st) (s st) (fraction st) (nfraction st)
     (loc st) (c st) (p st).
Definition setM (st : state) (v : Z) : state :=
  mk (Y st) v (d st) (h st) (m st) (s st) (fraction st) (nfraction st)
     (loc st) (c st) (p st).
Definition setd (st : state) (v : Z) : state :=
  mk (Y st) (M st) v (h st) (m st) (s st) (fraction st) (nfraction st)
     (loc st) (c st) (p st).
Definition seth (st : state) (v : Z) : state :=
  mk (Y st) (M st) (d st) v (m st) (s st) (fraction st) (nfraction st)
     (loc st) (c st) (p st).
Definition setm (st : state) (v : Z) : state :=
  mk (Y st) (M st) (d st) (h st) v (s st) (fraction st) (nfraction st)
     (loc st) (c st) (p st).
Definition sets (st : state) (v : Z) : state :=
  mk (Y st) (M st) (d st) (h st) (m st) v (fraction st) (nfraction st)
     (loc st) (c st) (p st).
Definition setfraction (st : state) (v : Z) : state :=
  mk (Y st) (M st) (d st) (h st) (m st) (s st) v (nfraction st)
     (loc st) (c st) (p st).
Definition setnfraction (st : state) (v : Z) : state :=
  mk (Y st) (M st) (d st) (h st) (m st) (s st) (fraction st) v
     (loc st) (c st) (p st).
Definition setloc (st : state) (v : Location) : state :=
  mk (Y st) (M st) (d st) (h st) (m st) (s st) (fraction st) (nfraction st)
     v (c st) (p st).
Definition setc (st : state) (v : Z) : state :=
  mk (Y st) (M st) (d st) (h st) (m st) (s st) (fraction st) (nfraction st)
     (loc st) v (p st).
Definition setp (st : state) (v : Cursor) : state :=
  mk (Y st) (M st) (d st) (h st) (m st) (s st) (fraction st) (nfraction st)
     (loc st) (c st) v.

(** What one iteration of the loop labelled [parse] does: go on with the
    next byte, leave the loop ([break parse]), or return an error. *)
Inductive outcome :=
| Next (st : state)
| Break (st : state)
| Fail (e : Error).

(** The zone introducer, [case '+'], also reached by fallthrough from
    [case '-'] once the cursor is at the hour or later.  [rest] is
    [inp[i:]]. *)
Definition zoneCase (st : state) (b : byte) (rest : list byte) : outcome :=
  let closed :=
    match p st with
    | hour => Some (seth st (c st))
    | minute => Some (setm st (c st))
    | second => Some (sets st (c st))
    | millisecond => Some (setfraction st (c st))
    | _ => None
    end in
  match closed with
  | None => Fail (newUnexpectedCharacterError (bval b))
  | Some st1 =>
    match ParseISOZone rest with
    | inl err => Fail err
    | inr l => Break (setloc (setc st1 0) l)
    end
  end.

(** The body of the loop at byte [b] = inp[i], with [tl] = inp[i+1:]. *)
Definition step (st : state) (b : byte) (tl : list byte) : outcome :=
  let v := bval b in
  let unexpected := Fail (newUnexpectedCharacterError v) in
  if isDigit b then
    let c1 := Int.add (Int.mul (c st) 10) (v - charStart) in
    let st1 := setc st c1 in
    Next (if cursorIndex (p st) =? cursorIndex millisecond
          then setnfraction st1 (nfraction st + 1) else st1)
  else if v =? 45 then (* '-' *)
    if cursorIndex (p st) <? cursorIndex hour then
      match p st with
      | year => Next (setc (setp (setY st (c st)) (next (p st))) 0)
      | month => Next (setc (setp (setM st (c st)) (next (p st))) 0)
      | _ => unexpected
      end
    else zoneCase st b (b :: tl)
  else if v =? 43 then (* '+' *)
    zoneCase st b (b :: tl)
  else if v =? 84 then (* 'T' *)
    match p st with
    | day => Next (setp (setc (setd st (c st)) 0) (next (p st)))
    | _ => unexpected
    end
  else if v =? 58 then (* ':' *)
    let closed :=
      match p st with
      | hour => Some (seth st (c st))
      | minute => Some (setm st (c st))
      | second => Some (setm st (c st))
      | _ => None
      end in
    match closed with
    | None => unexpected
    | Some st1 => Next (setp (setc st1 0) (next (p st)))
    end
  else if v =? 46 then (* '.' *)
    match p st with
    | second => Next (setp (setc (sets st (c st)) 0) (next (p st)))
    | _ => unexpected
    end
  else if v =? 90 then (* 'Z' *)
    let closed :=
      match p st with
      | hour => Some (seth st (c st))
      | minute => Some (setm st (c st))
      | second => Some (sets st (c st))
      | millisecond => Some (setfraction st (c st))
      | _ => None
      end in
    match closed with
    | None => unexpected
    | Some st1 =>
      match tl with
      | [] => Next (setc st1 0)
      | _ :: _ => Fail ErrRemainingData
      end
    end
  else unexpected.

(** The loop [for ; i < len(inp); i++] over the bytes still to read. *)
Fixpoint loop (st : state) (rest : list byte) : Error + state :=
  match rest with
  | [] => inr st
  | b :: tl =>
    match step st b tl with
    | Next st' => loop st' tl
    | Break st' => inr st'
    | Fail e => inl e
    end
  end.

(** Capture remaining data: a date can end without a non-integer
    character. *)
Definition capture (st : state) : state :=
  if 0 <? c st then
    match p st with
    | day => setd st (c st)
    | hour => seth st (c st)
    | minute => setm st (c st)
    | second => sets st (c st)
    | millisecond => setfraction st (c st)
    | _ => st
    end
  else st.

(** The fields as they stand when the scan is over. *)
Definition fields (inp : list byte) : Error + state :=
  match loop init inp with
  | inl e => inl e
  | inr st => inr (capture st)
  end.

(** The state after the bytes [pre] when every one of them lets the loop
    go on; [post] is what follows [pre] in the input. *)
Fixpoint advance (st : state) (pre post : list byte) : option state :=
  match pre with
  | [] => Some st
  | b :: tl =>
    match step st b (tl ++ post) with
    | Next st' => advance st' tl post
    | _ => None
    end
  end.

(** The field that a zone introducer or [Z] closes: the one under the
    cursor, from the hour on. *)
Definition timeOpen (st : state) : bool :=
  match p st with
  | hour | minute | second | millisecond => true
  | _ => false
  end.

End Scan.

(** [for i := 0; i < scale; i++ { fraction *= 10 }] *)
Fixpoint scaleLoop (n : nat) (fraction : Z) : Z :=
  match n with
  | O => fraction
  | S n' => scaleLoop n' (Int.mul fraction 10)
  end.

Definition nanoseconds (fraction nfraction : Z) : Z :=
  scaleLoop (Z.to_nat (10 - nfraction)) fraction.

(** The [switch] that checks the ranges of the fields. *)
Definition validate (inp : list byte) (st : Scan.state) : option RangeError :=
  let M := Scan.M st in
  let d := Scan.d st in
  if (M <? 1) || (12 <? M) then
    Some (mkRangeError inp "month" 1 12 M)
  else if (d <? 1) || (daysIn M (Scan.Y st) <? d) then
    Some (mkRangeError inp "day" 1 (daysIn M (Scan.Y st)) d)
  else if 23 <? Scan.h st then
    Some (mkRangeError inp "hour" 0 23 (Scan.h st))
  else if 59 <? Scan.m st then
    Some (mkRangeError inp "minute" 0 59 (Scan.m st))
  else if 59 <? Scan.s st then
    Some (mkRangeError inp "second" 0 59 (Scan.s st))
  else None.

Definition Parse (inp : list byte) : Error + Time :=
  match Scan.fields inp with
  | inl e => inl e
  | inr st =>
    let fraction := Scan.fraction st in
    if (fraction <? 0) || (1000000000 <=? fraction) then inl ErrPrecision
    else
      let fraction := nanoseconds fraction (Scan.nfraction st) in
      match validate inp st with
      | Some e => inl (ErrRange e)
      | None =>
        inr (Date (Scan.Y st) (Scan.M st) (Scan.d st) (Scan.h st)
                  (Scan.m st) (Scan.s st) fraction (Scan.loc st))
      end
  end.

Definition ParseString (inp : string) : Error + Time := Parse (bytes inp).

(** ** The host library: formatting

    [Time.AppendFormat] with the layouts of [time.go].  Each of them is
    [2006-01-02T15:04:05], a fraction of the second of up to 0, 3, 6 or 9
    digits written with nines (trailing zeros and an empty fraction are
    dropped), and the zone as [Z07:00]: [Z] for the offset 0, otherwise the
    sign, the hours and the minutes of the offset. *)

Inductive Layout :=
| RFC3339
| RFC3339Milli
| RFC3339Micro
| RFC3339Nano.

Definition fractionDigits (l : Layout) : nat :=
  match l with
  | RFC3339 => 0
  | RFC3339Milli => 3
  | RFC3339Micro => 6
  | RFC3339Nano => 9
  end.

Definition byteOf (v : Z) : byte :=
  match Byte.of_N (Z.to_N v) with
  | Some b => b
  | None => x00
  end.

Definition digitByte (v : Z) : byte := byteOf (charStart + v).

Fixpoint decimalFrom (fuel : nat) (u : Z) (acc : list byte) : list byte :=
  match fuel with
  | O => acc
  | S fuel' =>
    let acc' := digitByte (u mod 10) :: acc in
    if u / 10 =? 0 then acc' else decimalFrom fuel' (u / 10) acc'
  end.

(** The decimal form of an unsigned 64-bit number: at most 20 digits. *)
Definition decimal (u : Z) : list byte := decimalFrom 20 u [].

(** [appendInt]: the decimal form of [x], padded with leading zeros to
    [width] digits when shorter. *)
Definition appendInt (x : Z) (width : nat) : list byte :=
  let ds := decimal (Z.abs x) in
  (if x <? 0 then [byteOf 45] else [])
    ++ repeat (digitByte 0) (width - List.length ds) ++ ds.

Fixpoint trimZeros (l : list byte) : list byte :=
  match l with
  | [] => []
  | b :: t =>
    match trimZeros t with
    | [] => if bval b =? 48 then [] else [b]
    | t' => b :: t'
    end
  end.

(** [appendNano] for a fraction written with [n] nines. *)
Definition appendNano (nanosec : Z) (n : nat) : list byte :=
  match n with
  | O => []
  | _ =>
    if nanosec =? 0 then []
    else
      match trimZeros (firstn n (appendInt nanosec 9)) with
      | [] => []
      | ds => byteOf 46 :: ds
      end
  end.

(** The zone written as [Z07:00]. *)
Definition appendZone (offset : Z) : list byte :=
  if offset =? 0 then [byteOf 90]
  else
    let zone := Z.quot offset 60 in
    let sign := if zone <? 0 then 45 else 43 in
    let zone := Z.abs zone in
    byteOf sign :: appendInt (Z.quot zone 60) 2
      ++ byteOf 58 :: appendInt (Z.rem zone 60) 2.

Definition AppendFormat (t : Time) (layout : Layout) : list byte :=
  appendInt (Year t) 4 ++ byteOf 45 :: appendInt (Month t) 2
    ++ byteOf 45 :: appendInt (Day t) 2
    ++ byteOf 84 :: appendInt (Hour t) 2
    ++ byteOf 58 :: appendInt (Minute t) 2
    ++ byteOf 58 :: appendInt (Second t) 2
    ++ appendNano (Nanosecond t) (fractionDigits layout)
    ++ appendZone (zoneOffset (Loc t)).

(** ** time.go

    [MarshalTextFormat] is a package variable; it is the argument [format]
    here, and [RFC3339Nano] by default. *)

Definition MarshalText (t : Time) (format : Layout) : Error + list byte :=
  if (Year t <? 0) || (10000 <=? Year t) then inl ErrMarshalYear
  else inr (AppendFormat t format).

Definition quote : byte := byteOf 34.

Definition MarshalJSON (t : Time) (format : Layout) : Error + list byte :=
  if (Year t <? 0) || (10000 <=? Year t) then inl ErrMarshalYear
  else inr (quote :: AppendFormat t format ++ [quote]).

(** A call either returns or panics at run time. *)
Inductive Run (A : Type) :=
| Returns (a : A)
| Panics.
Arguments Returns {A} a.
Arguments Panics {A}.

(** The receiver [*t] after the call, and the error returned. *)
Definition Decoded : Type := Time * option Error.

Definition UnmarshalText (t : Time) (data : list byte) : Decoded :=
  match Parse data with
  | inr parsed => (parsed, None)
  | inl err => (t, Some err)
  end.

(** [b[i]] for an index within bounds. *)
Definition at_ (b : list byte) (i : Z) : byte := nth (Z.to_nat i) b x00.

(** The slice expression [b[lo:hi]]: a run-time panic unless
    [0 <= lo <= hi <= len(b)]. *)
Definition slice (b : list byte) (lo hi : Z) : option (list byte) :=
  if (0 <=? lo) && (lo <=? hi) && (hi <=? len b)
  then Some (firstn (Z.to_nat (hi - lo)) (drop lo b))
  else None.

(** null returns true if the given byte slice is a JSON null. *)
Definition null (b : list byte) : bool :=
  if negb (len b =? 4) then false
  else if negb (bval (at_ b 0) =? 110) && negb (bval (at_ b 1) =? 117)
          && negb (bval (at_ b 2) =? 108) && negb (bval (at_ b 3) =? 108)
  then false
  else true.

(** UnmarshalJSON decodes a JSON string or null into a iso8601 time.  On an
    error of Parse the receiver is assigned the zero time that Parse
    returns with it. *)
Definition UnmarshalJSON (t : Time) (b : list byte) : Run Decoded :=
  if null b then Returns (t, None)
  else if (0 <? len b) && (bval (at_ b 0) =? 34)
          && (bval (at_ b (len b - 1)) =? 34) then
    match slice b 1 (len b - 1) with
    | None => Panics
    | Some b' =>
      match Parse b' with
      | inr parsed => Returns (parsed, None)
      | inl err => Returns (zeroTime, Some err)
      end
    end
  else Returns (t, Some ErrNotString).

(** ** The signs of a zone *)

Inductive Sign :=
| Plus
| Hyphen
| Minus.

(** [+] (u002B), [-] (u002D) and the minus sign (u2212) in UTF-8. *)
Definition signBytes (sg : Sign) : list byte :=
  match sg with
  | Plus => [byteOf 43]
  | Hyphen => [byteOf 45]
  | Minus => [xe2; x88; x92]
  end.

Definition negative (sg : Sign) : bool :=
  match sg with
  | Plus => false
  | _ => true
  end.

Definition isSign (r : Z) : bool := (r =? 43) || (r =? 45) || (r =? 8722).

(** The first rune of a zone text and the bytes after it. *)
Definition firstRune (inp : list byte) : Z := fst (DecodeRune inp).
Definition afterSign (inp : list byte) : list byte :=
  drop (snd (DecodeRune inp)) inp.

(** ** The zone texts of the documentation

    After the sign the documentation of ParseISOZone lists [hh], [hh:mm]
    and [hh:mm:ss], and its examples [hhmm].  [zoneGroups] reads the hours,
    minutes and seconds of a text of 2-digit groups whose first group ends
    at byte 2 and whose second group ends at byte 5, a [:] standing at none,
    one or both of these places: [hh], [hhmm], [hh:mm], [hh:mmss] and
    [hh:mm:ss]. *)

Definition digitValue (b : byte) : option Z :=
  if isDigit b then Some (bval b - charStart) else None.

Definition isColon (b : byte) : bool := bval b =? 58.

Definition group (a b : byte) (k : Z -> option (Z * Z * Z))
  : option (Z * Z * Z) :=
  match digitValue a with
  | None => None
  | Some x =>
    match digitValue b with
    | None => None
    | Some y => k (10 * x + y)
    end
  end.

Definition colon (b : byte) (k : option (Z * Z * Z)) : option (Z * Z * Z) :=
  if isColon b then k else None.

Definition zoneGroups (number : list byte) : option (Z * Z * Z) :=
  match number with
  | [a; b] => group a b (fun h => Some (h, 0, 0))
  | [a; b; c; d] => group a b (fun h => group c d (fun m => Some (h, m, 0)))
  | [a; b; k; c; d] =>
    group a b (fun h => colon k (group c d (fun m => Some (h, m, 0))))
  | [a; b; k; c; d; e; f] =>
    group a b (fun h => colon k (group c d (fun m =>
      group e f (fun s => Some (h, m, s)))))
  | [a; b; k; c; d; k'; e; f] =>
    group a b (fun h => colon k (group c d (fun m =>
      colon k' (group e f (fun s => Some (h, m, s))))))
  | _ => None
  end.

(** The offset of a zone of the given hours, minutes and seconds. *)
Definition offsetOf (neg : bool) (h m s : Z) : Z :=
  let offset := h * 3600 + m * 60 + s in
  if neg then - offset else offset.

(** Six digits without colons, as bytes. *)
Definition sixDigits (a b c d e f : Z) : list byte :=
  map digitByte [a; b; c; d; e; f].

(** ** Instants and the round trip *)

(** The fields of an instant within the bounds of their domain. *)
Definition validTime (t : Time) : Prop :=
  0 <= Year t <= 9999
  /\ 1 <= Month t <= 12
  /\ 1 <= Day t <= daysIn (Month t) (Year t)
  /\ 0 <= Hour t <= 23
  /\ 0 <= Minute t <= 59
  /\ 0 <= Second t <= 59
  /\ 0 <= Nanosecond t < 1000000000.

Definition sameFields (x y : Time) : Prop :=
  Year y = Year x /\ Month y = Month x /\ Day y = Day x
  /\ Hour y = Hour x /\ Minute y = Minute x /\ Second y = Second x
  /\ Nanosecond y = Nanosecond x
  /\ zoneOffset (Loc y) = zoneOffset (Loc x).

(** Decoding the text of [x] at full precision gives back the fields of
    [x]. *)
Definition roundTrip (x : Time) : Prop :=
  exists b y,
    MarshalText x RFC3339Nano = inr b /\ Parse b = inr y /\ sameFields x y.

(** A zone offset that [Z07:00] can write: whole minutes, below 100 hours
    either way. *)
Definition minuteZone (offset : Z) : Prop :=
  Z.rem offset 60 = 0 /\ - 360000 < offset < 360000.

(** The [n] decimal digits of [v], the most significant first. *)
Fixpoint digitsOf (n : nat) (v : Z) : list Z :=
  match n with
  | O => []
  | S n' => digitsOf n' (v / 10) ++ [v mod 10]
  end.

(** The accumulator [c] after the digits [ds]. *)
Definition accumulate (c : Z) (ds : list Z) : Z :=
  fold_left (fun c v => Int.add (Int.mul c 10) v) ds c.

(** ** Auxiliary notions

    The errors and the invariants of the scan, and the properties of the
    specification that the code does not have, worded as it words them. *)

(** The errors that the scan itself returns. *)
Definition scanError (e : Error) : Prop :=
  match e with
  | ErrZoneTooShort | ErrZoneTooLong | ErrRemainingData | InvalidZone
  | UnexpectedCharacterError _ => True
  | _ => False
  end.

(** The precision check of Parse lets the fraction through. *)
Definition precisionOk (st : Scan.state) : Prop :=
  0 <= Scan.fraction st < 1000000000.

(** What the scan keeps true of the fraction: the counter starts at 1 and
    counts the digits read at the fraction, and as long as there are at most
    18 of them the accumulator there, and the fraction once stored, are the
    number written by that many digits. *)
Definition fractionInv (st : Scan.state) : Prop :=
  1 <= Scan.nfraction st
  /\ (Scan.p st <> millisecond -> Scan.nfraction st = 1)
  /\ (Scan.nfraction st <= 19 ->
      0 <= Scan.fraction st < 10 ^ (Scan.nfraction st - 1)
      /\ (Scan.p st = millisecond ->
          0 <= Scan.c st < 10 ^ (Scan.nfraction st - 1))).

(** The same of the fields when the scan is over. *)
Definition fractionBound (st : Scan.state) : Prop :=
  1 <= Scan.nfraction st
  /\ (Scan.nfraction st <= 19 ->
      0 <= Scan.fraction st < 10 ^ (Scan.nfraction st - 1)).

(** The scan over a run of digits. *)
Definition afterDigits (st : Scan.state) (ds : list Z) : Scan.state :=
  Scan.mk (Scan.Y st) (Scan.M st) (Scan.d st) (Scan.h st) (Scan.m st)
          (Scan.s st) (Scan.fraction st)
          (match Scan.p st with
           | millisecond => Scan.nfraction st + len ds
           | _ => Scan.nfraction st
           end)
          (Scan.loc st) (accumulate (Scan.c st) ds) (Scan.p st).

(** The claim on six digits as the specification words it: [hhmmss] after
    the sign parses to the offset of these hours, minutes and seconds. *)
Definition sixDigitZone (sg : Sign) (a b c d e f : Z) : Prop :=
  ParseISOZone (signBytes sg ++ sixDigits a b c d e f)
  = inr (FixedZone (signBytes sg ++ sixDigits a b c d e f)
                   (offsetOf (negative sg)
                             (10 * a + b) (10 * c + d) (10 * e + f))).

(** The claim on short zones as the specification words it: after the sign,
    fewer than 3 bytes is Zone-Too-Short, 3 or more is not. *)
Definition tooShortAfterSign (inp : list byte) : Prop :=
  isSign (firstRune inp) = true ->
  (len (afterSign inp) < 3 -> ParseISOZone inp = inl ErrZoneTooShort)
  /\ (3 <= len (afterSign inp) -> ParseISOZone inp <> inl ErrZoneTooShort).

(** The text of a fraction: the point and the digits [ds].  The value that
    the scan accumulates for them is [accumulate 0 ds]. *)
Definition fractionText (ds : list Z) : list byte :=
  byteOf 46 :: map digitByte ds.

(** What closes the fraction before the end of the input: a final [Z], or a
    zone that starts with [+] or [-] and that ParseISOZone accepts. *)
Definition closesFraction (tail : list byte) : Prop :=
  tail = [byteOf 90]
  \/ exists sg rest l,
      tail = byteOf sg :: rest /\ (sg = 43 \/ sg = 45)
      /\ ParseISOZone tail = inr l.

(** ** Notions of the further properties *)

(** The state once the time field under the cursor is closed: the
    accumulator stored into the hour, minute, second or fraction. *)
Definition closeTime (st : Scan.state) : Scan.state :=
  match Scan.p st with
  | hour => Scan.seth st (Scan.c st)
  | minute => Scan.setm st (Scan.c st)
  | second => Scan.sets st (Scan.c st)
  | millisecond => Scan.setfraction st (Scan.c st)
  | _ => st
  end.

(** No run of consecutive digits of the input is longer than [n]; [cur]
    digits of the current run are read already. *)
Fixpoint runsWithin (n cur : nat) (inp : list byte) : bool :=
  match inp with
  | [] => true
  | b :: tl =>
    if isDigit b then (S cur <=? n)%nat && runsWithin n (S cur) tl
    else runsWithin n O tl
  end.

(** The number of digits that the input starts with: those of the year. *)
Fixpoint leadingDigits (inp : list byte) : nat :=
  match inp with
  | [] => O
  | b :: tl => if isDigit b then S (leadingDigits tl) else O
  end.

(** The fields of the scan are not negative. *)
Definition fieldsNonneg (st : Scan.state) : Prop :=
  0 <= Scan.Y st /\ 0 <= Scan.M st /\ 0 <= Scan.d st /\ 0 <= Scan.h st
  /\ 0 <= Scan.m st /\ 0 <= Scan.s st /\ 0 <= Scan.fraction st.

(** Two digits of a field, and the date [yyyy-mm-dd], as texts. *)
Definition twoDigits (v : Z) : list byte := map digitByte (digitsOf 2 v).

Definition dateText (Y M D : Z) : list byte :=
  map digitByte (digitsOf 4 Y)
    ++ byteOf 45 :: twoDigits M ++ byteOf 45 :: twoDigits D.

(** The nanoseconds cut to the [n] digits that a layout writes. *)
Definition truncated (n : nat) (ns : Z) : Z :=
  ns / 10 ^ (9 - Z.of_nat n) * 10 ^ (9 - Z.of_nat n).

(** The layouts of [time.go] as texts: [MarshalText] and [MarshalJSON]
    allocate [len(MarshalTextFormat)] bytes for their result. *)
Definition layoutText (l : Layout) : string :=
  match l with
  | RFC3339 => "2006-01-02T15:04:05Z07:00"
  | RFC3339Milli => "2006-01-02T15:04:05.999Z07:00"
  | RFC3339Micro => "2006-01-02T15:04:05.999999Z07:00"
  | RFC3339Nano => "2006-01-02T15:04:05.999999999Z07:00"
  end.

(** * Properties *)

(** ** Tactics *)

Ltac break_if :=
  match goal with
  | |- context [if ?t then _ else _] => destruct t eqn:?
  | H : context [if ?t then _ else _] |- _ => destruct t eqn:?
  end.

(** ** Bytes and machine integers *)

Lemma bval_range (b : byte) : 0 <= bval b < 256.
Proof.
  unfold bval. pose proof (Byte.to_N_bounded b). lia.
Qed.

Lemma bval_byteOf (v : Z) : 0 <= v < 256 -> bval (byteOf v) = v.
Proof.
  intros Hv. unfold bval, byteOf.
  destruct (Byte.of_N (Z.to_N v)) as [b|] eqn:E.
  - apply Byte.to_of_N in E. rewrite E. lia.
  - apply Byte.of_N_None_iff in E. lia.
Qed.

Lemma bval_inj (a b : byte) : bval a = bval b -> a = b.
Proof.
  unfold bval. intros H.
  assert (E : Byte.to_N a = Byte.to_N b) by lia.
  pose proof (Byte.of_to_N a) as Ha. rewrite E, Byte.of_to_N in Ha.
  congruence.
Qed.

Lemma wrap_small (z : Z) : Int.in_range z -> Int.wrap z = z.
Proof.
  unfold Int.in_range, Int.wrap. intros H.
  rewrite Z.mod_small; lia.
Qed.

Lemma len_cons {A} (a : A) (l : list A) : len (a :: l) = 1 + len l.
Proof. unfold len. cbn [List.length]. lia. Qed.

Lemma len_nonneg {A} (l : list A) : 0 <= len l.
Proof. unfold len. lia. Qed.

Lemma len_app {A} (l l' : list A) : len (l ++ l') = len l + len l'.
Proof. unfold len. rewrite length_app. lia. Qed.

Lemma isDigit_range (b : byte) :
  isDigit b = true <-> 48 <= bval b <= 57.
Proof. unfold isDigit. lia. Qed.

Lemma digitByte_value (v : Z) :
  0 <= v <= 9 ->
  isDigit (digitByte v) = true /\ bval (digitByte v) - charStart = v.
Proof.
  intros H. unfold digitByte, charStart.
  assert (E : bval (byteOf (48 + v)) = 48 + v) by (apply bval_byteOf; lia).
  split; [apply isDigit_range; lia | lia].
Qed.

(** ** The zone parser *)

Lemma DecodeRune_sign (sg : Sign) (number : list byte) :
  DecodeRune (signBytes sg ++ number)
  = (match sg with Plus => 43 | Hyphen => 45 | Minus => 8722 end,
     len (signBytes sg)).
Proof.
  destruct sg; try reflexivity.
  cbn [signBytes app]. unfold DecodeRune.
  change (bval xe2) with 226. change (bval x88) with 136.
  change (bval x92) with 146. cbn -[len].
  rewrite !len_cons. pose proof (len_nonneg number).
  destruct (1 + (1 + (1 + len number)) <? 3) eqn:E; [lia | reflexivity].
Qed.

Lemma afterSign_sign (sg : Sign) (number : list byte) :
  afterSign (signBytes sg ++ number) = number.
Proof.
  unfold afterSign. rewrite DecodeRune_sign. destruct sg; reflexivity.
Qed.

Lemma ParseISOZone_signed (inp : list byte) :
  isSign (firstRune inp) = true ->
  ParseISOZone inp
  = if len inp <? 3 then inl ErrZoneTooShort
    else zoneResult (negb (firstRune inp =? 43)) inp (afterSign inp).
Proof.
  unfold isSign, firstRune, afterSign, ParseISOZone, zoneResult.
  destruct (DecodeRune inp) as [r i]. cbn [fst snd]. intros H.
  destruct (r =? 90) eqn:E90; [lia|].
  destruct (r =? 43) eqn:E43; [reflexivity|].
  destruct ((r =? 45) || (r =? 8722)) eqn:E45; [reflexivity | lia].
Qed.

Lemma ParseISOZone_sign (sg : Sign) (number : list byte) :
  ParseISOZone (signBytes sg ++ number)
  = if len (signBytes sg ++ number) <? 3 then inl ErrZoneTooShort
    else zoneResult (negative sg) (signBytes sg ++ number) number.
Proof.
  rewrite ParseISOZone_signed.
  - rewrite afterSign_sign. unfold firstRune. rewrite DecodeRune_sign.
    destruct sg; reflexivity.
  - unfold firstRune. rewrite DecodeRune_sign. destruct sg; reflexivity.
Qed.

Lemma Zone_step_not_too_short (i : Z) (st : Zone.state) (b : byte) :
  Zone.step i st b <> inl ErrZoneTooShort.
Proof.
  unfold Zone.step, newUnexpectedCharacterError.
  repeat match goal with
         | |- context [if ?t then _ else _] => destruct t
         end; discriminate.
Qed.

Lemma Zone_loop_not_too_short (number : list byte) :
  forall i st, Zone.loop i st number <> inl ErrZoneTooShort.
Proof.
  induction number as [|b tl IH]; intros i st; cbn [Zone.loop].
  - discriminate.
  - destruct (Zone.step i st b) as [e|st'] eqn:E.
    + intros H. apply (Zone_step_not_too_short i st b). congruence.
    + apply IH.
Qed.

Lemma zoneResult_not_too_short (neg : bool) (inp number : list byte) :
  zoneResult neg inp number <> inl ErrZoneTooShort.
Proof.
  unfold zoneResult.
  destruct (Zone.loop 0 Zone.init number) as [e|st] eqn:E.
  - intros H. apply (Zone_loop_not_too_short number 0 Zone.init). congruence.
  - repeat match goal with
           | |- context [if ?t then _ else _] => destruct t
           end; discriminate.
Qed.

Section ZoneGroups.

#[local] Arguments isDigit : simpl never.
#[local] Arguments bval : simpl never.
#[local] Arguments Int.wrap : simpl never.
#[local] Arguments Z.mul : simpl never.

Ltac classify b :=
  let D := fresh "D" in
  let C := fresh "C" in
  let R := fresh "R" in
  destruct (isDigit b) eqn:D;
  [ pose proof (proj1 (isDigit_range b) D) as R;
    assert (C : (bval b =? 58) = false) by lia;
    rewrite ?C
  | destruct (bval b =? 58) eqn:C ].

Ltac unwrap :=
  try change (Int.quot 3600 60) with 60;
  try change (Int.quot 60 60) with 1;
  try change (Int.quot 1 60) with 0;
  unfold Int.add, Int.mul, Int.neg;
  repeat match goal with
         | |- context [Int.wrap ?x] =>
           rewrite (wrap_small x) by (unfold Int.in_range, charStart; lia)
         end.

Ltac leaf :=
  cbn;
  first
    [ exact I
    | discriminate
    | split;
      [ unfold charStart; lia
      | eexists; split; [reflexivity|]; split; [reflexivity|];
        unfold zoneTotal; cbn; unwrap; unfold charStart; lia ] ].

Ltac scan b := classify b; cbn; try solve [leaf].

Lemma Zone_loop_groups (number : list byte) :
  match zoneGroups number with
  | Some (h, m, s) =>
    (0 <= h < 100 /\ 0 <= m < 100 /\ 0 <= s < 100)
    /\ exists st,
        Zone.loop 0 Zone.init number = inr st
        /\ Zone.digits st = 2
        /\ zoneTotal st = h * 3600 + m * 60 + s
  | None =>
    match Zone.loop 0 Zone.init number with
    | inl _ => True
    | inr st => Zone.digits st <> 2
    end
  end.
Proof.
  destruct number as [|b0 [|b1 [|b2 [|b3 [|b4 [|b5 [|b6 [|b7 [|b8 tl]]]]]]]]].
  all: unfold zoneGroups, group, colon, digitValue, isColon.
  all: cbn.
  - discriminate.
  - scan b0.
  - scan b0; scan b1.
  - scan b0; scan b1; scan b2.
  - scan b0; scan b1; scan b2; scan b3.
  - scan b0; scan b1; scan b2; scan b3; scan b4.
  - scan b0; scan b1; scan b2; scan b3; scan b4; scan b5.
  - scan b0; scan b1; scan b2; scan b3; scan b4; scan b5; scan b6.
  - scan b0; scan b1; scan b2; scan b3; scan b4; scan b5; scan b6; scan b7.
  - scan b0; scan b1; scan b2; scan b3; scan b4; scan b5; scan b6; scan b7;
      scan b8; destruct tl; leaf.
Qed.

Lemma Zone_loop_sixDigits (a b c d e f : Z) :
  0 <= a <= 9 -> 0 <= b <= 9 -> 0 <= c <= 9 ->
  0 <= d <= 9 -> 0 <= e <= 9 -> 0 <= f <= 9 ->
  Zone.loop 0 Zone.init (sixDigits a b c d e f) = inl ErrZoneTooLong.
Proof.
  intros Ha Hb Hc Hd He Hf.
  destruct (digitByte_value a Ha) as [Da _].
  destruct (digitByte_value b Hb) as [Db _].
  destruct (digitByte_value c Hc) as [Dc _].
  destruct (digitByte_value d Hd) as [Dd _].
  destruct (digitByte_value e He) as [De _].
  unfold sixDigits. cbn [map Zone.loop].
  unfold Zone.step at 1. cbn. rewrite Da.
  unfold Zone.step at 1. cbn. rewrite Db.
  unfold Zone.step at 1. cbn. rewrite Dc.
  unfold Zone.step at 1. cbn. rewrite Dd.
  unfold Zone.step at 1. cbn. rewrite De.
  reflexivity.
Qed.

End ZoneGroups.

Lemma zoneGroups_length (number : list byte) (g : Z * Z * Z) :
  zoneGroups number = Some g -> 2 <= len number.
Proof.
  destruct number as [|b0 [|b1 tl]]; try discriminate.
  intros _. rewrite !len_cons. pose proof (len_nonneg tl). lia.
Qed.

Lemma zoneResult_groups (neg : bool) (inp number : list byte) (h m s : Z) :
  zoneGroups number = Some (h, m, s) ->
  zoneResult neg inp number
  = if neg && (h * 3600 + m * 60 + s =? 0) then inl ErrInvalidZone
    else inr (FixedZone inp (offsetOf neg h m s)).
Proof.
  intros G. pose proof (Zone_loop_groups number) as L. rewrite G in L.
  destruct L as ((Hh & Hm & Hs) & st & Hl & Hd & Ht).
  unfold zoneResult. rewrite Hl, Hd. fold (zoneTotal st). rewrite Ht.
  cbn [Z.eqb Pos.eqb negb]. unfold offsetOf, Int.neg.
  rewrite wrap_small by (unfold Int.in_range; lia).
  destruct neg; cbn [andb]; [|reflexivity].
  destruct (h * 3600 + m * 60 + s =? 0) eqn:E;
    destruct (- (h * 3600 + m * 60 + s) =? 0) eqn:E';
    try reflexivity; lia.
Qed.

Lemma zoneResult_accepts (neg : bool) (inp number : list byte) (l : Location) :
  zoneResult neg inp number = inr l ->
  exists h m s, zoneGroups number = Some (h, m, s).
Proof.
  intros H. pose proof (Zone_loop_groups number) as L.
  destruct (zoneGroups number) as [[[h m] s]|]; [eauto|].
  exfalso. unfold zoneResult in H.
  destruct (Zone.loop 0 Zone.init number) as [e|st]; [discriminate|].
  destruct (Zone.digits st =? 2) eqn:E; [lia | discriminate].
Qed.

(** The zone parser on the texts of the documentation. *)
Lemma ParseISOZone_groups (sg : Sign) (number : list byte) (h m s : Z) :
  zoneGroups number = Some (h, m, s) ->
  ParseISOZone (signBytes sg ++ number)
  = if negative sg && (h * 3600 + m * 60 + s =? 0) then inl ErrInvalidZone
    else inr (FixedZone (signBytes sg ++ number)
                        (offsetOf (negative sg) h m s)).
Proof.
  intros G. rewrite ParseISOZone_sign, len_app.
  pose proof (zoneGroups_length _ _ G).
  assert (L : 1 <= len (signBytes sg))
    by (destruct sg; vm_compute; discriminate).
  destruct (len (signBytes sg) + len number <? 3) eqn:E; [lia|].
  apply zoneResult_groups. exact G.
Qed.

(** C5, as stated, fails: [+010203] is six digits of hours, minutes and
    seconds, and ParseISOZone rejects it as too long. *)
Lemma sixDigitZone_fails : ~ sixDigitZone Plus 0 1 0 2 0 3.
Proof.
  unfold sixDigitZone. vm_compute. discriminate.
Qed.

(** C5, amended: after the sign ParseISOZone reads up to three 2-digit
    groups, the first ending at byte 2 and the second at byte 5, a colon
    standing at none, one or both of these places ([hh], [hhmm], [hh:mm],
    [hh:mmss], [hh:mm:ss]).  Such a text parses to the offset
    hours*3600 + minutes*60 + seconds with the sign applied (a negative
    zero apart, which is rejected), and no other text is accepted; six
    digits [hhmmss] without colons are rejected with ErrZoneTooLong. *)
Theorem zone_groups_offset (sg : Sign) (number : list byte) :
  (forall h m s,
      zoneGroups number = Some (h, m, s) ->
      ParseISOZone (signBytes sg ++ number)
      = if negative sg && (h * 3600 + m * 60 + s =? 0)
        then inl ErrInvalidZone
        else inr (FixedZone (signBytes sg ++ number)
                            (offsetOf (negative sg) h m s)))
  /\ (forall l,
      ParseISOZone (signBytes sg ++ number) = inr l ->
      exists h m s,
        zoneGroups number = Some (h, m, s)
        /\ l = FixedZone (signBytes sg ++ number)
                         (offsetOf (negative sg) h m s))
  /\ (forall a b c d e f,
      0 <= a <= 9 -> 0 <= b <= 9 -> 0 <= c <= 9 ->
      0 <= d <= 9 -> 0 <= e <= 9 -> 0 <= f <= 9 ->
      ParseISOZone (signBytes sg ++ sixDigits a b c d e f)
      = inl ErrZoneTooLong).
Proof.
  split; [|split].
  - intros h m s G. apply ParseISOZone_groups. exact G.
  - intros l H. pose proof H as H'.
    rewrite ParseISOZone_sign in H'.
    destruct (len (signBytes sg ++ number) <? 3); [discriminate|].
    destruct (zoneResult_accepts _ _ _ _ H') as (h & m & s & G).
    exists h, m, s. split; [exact G|].
    rewrite (ParseISOZone_groups sg number h m s G) in H.
    destruct (negative sg && (h * 3600 + m * 60 + s =? 0));
      [discriminate | congruence].
  - intros a b c d e f Ha Hb Hc Hd He Hf.
    rewrite ParseISOZone_sign, len_app.
    assert (L : 1 <= len (signBytes sg))
      by (destruct sg; vm_compute; discriminate).
    change (len (sixDigits a b c d e f)) with 6.
    destruct (len (signBytes sg) + 6 <? 3) eqn:E; [lia|].
    unfold zoneResult. rewrite Zone_loop_sixDigits by assumption.
    reflexivity.
Qed.

Lemma zone_groups_offset_witness :
  ParseISOZone (bytes "+05:01:01")
  = inr (FixedZone (bytes "+05:01:01") (5 * 3600 + 61)).
Proof.
  exact (proj1 (zone_groups_offset Plus (bytes "05:01:01")) 5 1 1 eq_refl).
Defined.


(** C4, as stated, fails: after the sign of [+01] two bytes remain, fewer
    than 3, and the zone is accepted as one hour east. *)
Lemma tooShortAfterSign_fails : ~ tooShortAfterSign (bytes "+01").
Proof.
  unfold tooShortAfterSign. intros H.
  destruct (H eq_refl) as [H1 _].
  assert (L : len (afterSign (bytes "+01")) < 3)
    by (vm_compute; reflexivity).
  specialize (H1 L). vm_compute in H1. discriminate.
Qed.

(** C4, amended: for a zone text that starts with a sign, ParseISOZone fails
    with ErrZoneTooShort exactly when the whole text, sign included, is
    shorter than 3 bytes; in particular never when 3 or more bytes follow
    the sign. *)
Theorem zone_too_short_iff (inp : list byte) :
  isSign (firstRune inp) = true ->
  (ParseISOZone inp = inl ErrZoneTooShort <-> len inp < 3)
  /\ (3 <= len (afterSign inp) -> ParseISOZone inp <> inl ErrZoneTooShort).
Proof.
  intros Hs. rewrite (ParseISOZone_signed inp Hs).
  set (neg := negb (firstRune inp =? 43)).
  assert (A : (if len inp <? 3 then inl ErrZoneTooShort
               else zoneResult neg inp (afterSign inp))
              = inl ErrZoneTooShort <-> len inp < 3).
  { destruct (len inp <? 3) eqn:E.
    - split; [lia | reflexivity].
    - split; [|lia]. intros H. now apply zoneResult_not_too_short in H. }
  split; [exact A|].
  intros H3 H. apply A in H.
  unfold afterSign, drop, len in *. rewrite length_skipn in H3. lia.
Qed.

Lemma zone_too_short_iff_witness :
  (ParseISOZone (bytes "+0") = inl ErrZoneTooShort <-> len (bytes "+0") < 3)
  /\ (3 <= len (afterSign (bytes "+0")) ->
      ParseISOZone (bytes "+0") <> inl ErrZoneTooShort).
Proof.
  apply (zone_too_short_iff (bytes "+0")). reflexivity.
Defined.

(** A zone text whose sign is negative never parses to the offset 0. *)
Lemma zoneResult_negative_nonzero (inp number : list byte) (l : Location) :
  zoneResult true inp number = inr l -> zoneOffset l <> 0.
Proof.
  unfold zoneResult.
  destruct (Zone.loop 0 Zone.init number) as [e|st]; [discriminate|].
  destruct (negb (Zone.digits st =? 2)); [discriminate|].
  cbn [andb].
  match goal with
  | |- context [?x =? 0] => destruct (x =? 0) eqn:E
  end; [discriminate|].
  intros H. injection H as <-. cbn [zoneOffset]. lia.
Qed.

Lemma zoneResult_zero_negated (inp inp' number : list byte)
      (l : Location) :
  zoneResult false inp number = inr l -> zoneOffset l = 0 ->
  zoneResult true inp' number = inl ErrInvalidZone.
Proof.
  unfold zoneResult.
  destruct (Zone.loop 0 Zone.init number) as [e|st]; [discriminate|].
  destruct (negb (Zone.digits st =? 2)); [discriminate|].
  cbn [andb]. intros H. injection H as <-. cbn [zoneOffset].
  intros ->. reflexivity.
Qed.

(** C6: a zone text with a negative sign, hyphen or minus sign, whose
    magnitude is zero is rejected with ErrInvalidZone: every text of 2-digit
    groups whose hours, minutes and seconds add up to zero, and more
    generally every text that parses to the offset 0 under [+]; no negative
    zone text at all parses to the offset 0.  So [-00], [-0000] and [-00:00]
    are ErrInvalidZone, while [+00:00] is the offset 0 and [Z] is UTC. *)
Theorem negative_zero_zone_rejected :
  (forall sg number h m s,
      negative sg = true ->
      zoneGroups number = Some (h, m, s) ->
      h * 3600 + m * 60 + s = 0 ->
      ParseISOZone (signBytes sg ++ number) = inl ErrInvalidZone)
  /\ (forall sg number l,
      negative sg = true ->
      ParseISOZone (signBytes Plus ++ number) = inr l ->
      zoneOffset l = 0 ->
      ParseISOZone (signBytes sg ++ number) = inl ErrInvalidZone)
  /\ (forall sg number l,
      negative sg = true ->
      ParseISOZone (signBytes sg ++ number) = inr l -> zoneOffset l <> 0)
  /\ ParseISOZone (bytes "-00") = inl ErrInvalidZone
  /\ ParseISOZone (bytes "-0000") = inl ErrInvalidZone
  /\ ParseISOZone (bytes "-00:00") = inl ErrInvalidZone
  /\ ParseISOZone (bytes "-00:00:00") = inl ErrInvalidZone
  /\ ParseISOZone (signBytes Minus ++ bytes "00:00") = inl ErrInvalidZone
  /\ ParseISOZone (bytes "+00:00") = inr (FixedZone (bytes "+00:00") 0)
  /\ ParseISOZone (bytes "Z") = inr UTC.
Proof.
  split; [|split; [|split]]; [| | |repeat split; reflexivity].
  - intros sg number h m s Hneg G Hzero.
    rewrite (ParseISOZone_groups sg number h m s G), Hneg, Hzero.
    reflexivity.
  - intros sg number l Hneg Hplus Hzero.
    rewrite ParseISOZone_sign in Hplus. rewrite ParseISOZone_sign.
    rewrite len_app in *.
    destruct (len (signBytes Plus) + len number <? 3) eqn:E; [discriminate|].
    assert (L : 1 <= len (signBytes sg))
      by (destruct sg; vm_compute; discriminate).
    change (len (signBytes Plus)) with 1 in E.
    destruct (len (signBytes sg) + len number <? 3) eqn:E'; [lia|].
    rewrite Hneg. eapply zoneResult_zero_negated; eauto.
  - intros sg number l Hneg H.
    rewrite ParseISOZone_sign in H.
    destruct (len (signBytes sg ++ number) <? 3); [discriminate|].
    rewrite Hneg in H. eapply zoneResult_negative_nonzero; eauto.
Qed.

Lemma negative_zero_zone_rejected_witness :
  ParseISOZone (signBytes Hyphen ++ bytes "00:00") = inl ErrInvalidZone.
Proof.
  exact (proj1 negative_zero_zone_rejected Hyphen (bytes "00:00") 0 0 0
               eq_refl eq_refl eq_refl).
Defined.

(** ** The scanner *)

(** C1: the code breaks the claim.  At [:] with the cursor on the second,
    [Scan.step] stores the accumulator into the minute, not into the second,
    whatever the state: parsing [2017-04-24T09:41:34:] gives the minute 34
    (the 41 read before is lost) and the second 0. *)
Theorem colon_at_second_overwrites_minute :
  (forall st tl,
      Scan.step (Scan.setp st second) (byteOf 58) tl
      = Scan.Next (Scan.mk (Scan.Y st) (Scan.M st) (Scan.d st) (Scan.h st)
                           (Scan.c st) (Scan.s st)
                           (Scan.fraction st) (Scan.nfraction st)
                           (Scan.loc st) 0 millisecond))
  /\ ParseString "2017-04-24T09:41:34:"
     = inr (Date 2017 4 24 9 34 0 0 UTC)
  /\ ParseString "2017-04-24T09:41:34Z"
     = inr (Date 2017 4 24 9 41 34 0 UTC).
Proof.
  split; [|split; reflexivity].
  intros st tl. reflexivity.
Qed.

Lemma Zone_loop_scanError (number : list byte) :
  forall i st e, Zone.loop i st number = inl e -> scanError e.
Proof.
  induction number as [|b tl IH]; intros i st e; cbn [Zone.loop].
  - discriminate.
  - destruct (Zone.step i st b) as [e'|st'] eqn:E.
    + intros H. injection H as <-. revert E.
      unfold Zone.step, newUnexpectedCharacterError.
      repeat break_if; intros H; inversion H; exact I.
    + apply IH.
Qed.

Lemma ParseISOZone_scanError (inp : list byte) (e : Error) :
  ParseISOZone inp = inl e -> scanError e.
Proof.
  unfold ParseISOZone, zoneResult, newUnexpectedCharacterError.
  destruct (DecodeRune inp) as [r i].
  destruct (Zone.loop 0 Zone.init (drop i inp)) as [e'|st] eqn:E.
  - apply Zone_loop_scanError in E.
    repeat break_if; intros H; inversion H; subst; try exact I; exact E.
  - repeat break_if; intros H; inversion H; exact I.
Qed.

Lemma Scan_step_scanError (st : Scan.state) (b : byte) (tl : list byte)
      (e : Error) :
  Scan.step st b tl = Scan.Fail e -> scanError e.
Proof.
  unfold Scan.step, Scan.zoneCase, newUnexpectedCharacterError.
  destruct (ParseISOZone (b :: tl)) as [e'|l] eqn:E.
  - apply ParseISOZone_scanError in E.
    destruct (Scan.p st); destruct tl;
      repeat break_if; intros H; inversion H; subst; try exact I; exact E.
  - destruct (Scan.p st); destruct tl;
      repeat break_if; intros H; inversion H; exact I.
Qed.

Lemma Scan_loop_scanError (rest : list byte) :
  forall st e, Scan.loop st rest = inl e -> scanError e.
Proof.
  induction rest as [|b tl IH]; intros st e; cbn [Scan.loop].
  - discriminate.
  - destruct (Scan.step st b tl) as [st'|st'|e'] eqn:E.
    + apply IH.
    + discriminate.
    + intros H. injection H as <-. eapply Scan_step_scanError; eauto.
Qed.

Lemma Scan_fields_scanError (inp : list byte) (e : Error) :
  Scan.fields inp = inl e -> scanError e.
Proof.
  unfold Scan.fields.
  destruct (Scan.loop Scan.init inp) as [e'|st] eqn:E; [|discriminate].
  intros H. injection H as <-. eapply Scan_loop_scanError; eauto.
Qed.

Lemma Scan_loop_advance (pre post : list byte) :
  forall st st',
    Scan.advance st pre post = Some st' ->
    Scan.loop st (pre ++ post) = Scan.loop st' post.
Proof.
  induction pre as [|b tl IH]; intros st st'; cbn [Scan.advance app].
  - intros H. injection H as <-. reflexivity.
  - cbn [Scan.loop].
    destruct (Scan.step st b (tl ++ post)) as [st1|st1|e]; try discriminate.
    apply IH.
Qed.

(** While the loop goes on the zone is the one it started with. *)
Lemma Scan_step_Next_loc (st st' : Scan.state) (b : byte) (tl : list byte) :
  Scan.step st b tl = Scan.Next st' -> Scan.loc st' = Scan.loc st.
Proof.
  unfold Scan.step, Scan.zoneCase.
  destruct (ParseISOZone (b :: tl)); destruct (Scan.p st); destruct tl;
    repeat break_if; intros H; inversion H; reflexivity.
Qed.

Lemma Scan_advance_loc (pre post : list byte) :
  forall st st',
    Scan.advance st pre post = Some st' -> Scan.loc st' = Scan.loc st.
Proof.
  induction pre as [|b tl IH]; intros st st'; cbn [Scan.advance].
  - intros H. injection H as <-. reflexivity.
  - destruct (Scan.step st b (tl ++ post)) as [st1|st1|e] eqn:E;
      try discriminate.
    intros H. rewrite (IH _ _ H). eapply Scan_step_Next_loc; eauto.
Qed.

(** C8: a [Z] met by the scan while the hour, the minute, the second or the
    fraction is open is legal only as the last byte.  When bytes follow it
    Parse fails with ErrRemainingData and returns no value; when it is the
    last byte the scan ends with the accumulator stored into the open field
    (and into no other) and with the zone UTC. *)
Theorem Z_closes_open_field (pre post : list byte) (st : Scan.state) :
  Scan.advance Scan.init pre (byteOf 90 :: post) = Some st ->
  Scan.timeOpen st = true ->
  (post <> [] -> Parse (pre ++ byteOf 90 :: post) = inl ErrRemainingData)
  /\ (post = [] ->
      exists r,
        Scan.fields (pre ++ [byteOf 90]) = inr r
        /\ Scan.loc r = UTC
        /\ r = match Scan.p st with
               | hour => Scan.setc (Scan.seth st (Scan.c st)) 0
               | minute => Scan.setc (Scan.setm st (Scan.c st)) 0
               | second => Scan.setc (Scan.sets st (Scan.c st)) 0
               | _ => Scan.setc (Scan.setfraction st (Scan.c st)) 0
               end).
Proof.
  intros Hadv Hopen.
  pose proof (Scan_advance_loc _ _ _ _ Hadv) as Hloc. cbn in Hloc.
  split.
  - intros Hpost. unfold Parse, Scan.fields.
    rewrite (Scan_loop_advance _ _ _ _ Hadv). cbn [Scan.loop].
    destruct post as [|x post']; [congruence|].
    unfold Scan.timeOpen in Hopen.
    unfold Scan.step. change (isDigit (byteOf 90)) with false.
    change (bval (byteOf 90)) with 90. cbn [Z.eqb Pos.eqb].
    destruct (Scan.p st); try discriminate; reflexivity.
  - intros ->. unfold Scan.fields.
    rewrite (Scan_loop_advance _ _ _ _ Hadv). cbn [Scan.loop].
    unfold Scan.timeOpen in Hopen.
    unfold Scan.step. change (isDigit (byteOf 90)) with false.
    change (bval (byteOf 90)) with 90. cbn [Z.eqb Pos.eqb].
    destruct (Scan.p st); try discriminate; eexists;
      (split; [reflexivity|split; [exact Hloc|reflexivity]]).
Qed.

Lemma Z_closes_open_field_witness :
  Parse (bytes "2017-04-24T09:41:34" ++ byteOf 90 :: bytes "5")
  = inl ErrRemainingData
  /\ exists r,
      Scan.fields (bytes "2017-04-24T09:41:34" ++ [byteOf 90]) = inr r
      /\ Scan.loc r = UTC
      /\ r = Scan.mk 2017 4 24 9 41 34 0 1 UTC 0 second.
Proof.
  split.
  - apply (Z_closes_open_field (bytes "2017-04-24T09:41:34") (bytes "5")
             (Scan.mk 2017 4 24 9 41 0 0 1 UTC 34 second));
      [reflexivity | reflexivity | discriminate].
  - apply (Z_closes_open_field (bytes "2017-04-24T09:41:34") []
             (Scan.mk 2017 4 24 9 41 0 0 1 UTC 34 second));
      reflexivity.
Defined.

(** *** Range validation *)

Lemma Parse_validate (inp : list byte) (st : Scan.state) :
  Scan.fields inp = inr st -> precisionOk st ->
  Parse inp
  = match validate inp st with
    | Some e => inl (ErrRange e)
    | None =>
      inr (Date (Scan.Y st) (Scan.M st) (Scan.d st) (Scan.h st) (Scan.m st)
                (Scan.s st)
                (nanoseconds (Scan.fraction st) (Scan.nfraction st))
                (Scan.loc st))
    end.
Proof.
  unfold Parse, precisionOk. intros -> H.
  destruct ((Scan.fraction st <? 0) || (1000000000 <=? Scan.fraction st))
           eqn:E; [lia | reflexivity].
Qed.

Lemma Parse_range_error (inp : list byte) (e : RangeError) :
  Parse inp = inl (ErrRange e) ->
  exists st, Scan.fields inp = inr st /\ validate inp st = Some e.
Proof.
  unfold Parse.
  destruct (Scan.fields inp) as [e'|st] eqn:E.
  - intros H. inversion H; subst. apply Scan_fields_scanError in E.
    destruct E.
  - destruct ((Scan.fraction st <? 0) || (1000000000 <=? Scan.fraction st));
      [discriminate|].
    destruct (validate inp st) as [e'|] eqn:V; [|discriminate].
    intros H. inversion H; subst. exists st. split; [reflexivity | exact V].
Qed.

(** C7: the fields are checked in the order month, day, hour, minute,
    second, and the first one out of range is the one reported: a month
    outside [1,12] whatever the other fields; a day outside
    [1, daysIn month year] once the month is in range; then the hour above
    23, the minute above 59, the second above 59.  Every range error holds
    the whole input text, the name of the element, the value given and the
    bounds it is outside of.  The length of February follows the Gregorian
    leap rule, so [2019-02-29T00:00:00.000+00:00] is a day error with
    given 29 and bounds [1,28], and [2020-02-30T00:00:00.000+00:00] one with
    given 30 and bounds [1,29]. *)
Theorem range_validation_order :
  (forall inp st,
      Scan.fields inp = inr st -> precisionOk st ->
      let M := Scan.M st in
      let d := Scan.d st in
      let dmax := daysIn (Scan.M st) (Scan.Y st) in
      (M < 1 \/ 12 < M ->
       Parse inp = inl (ErrRange (mkRangeError inp "month" 1 12 M)))
      /\ (1 <= M <= 12 -> d < 1 \/ dmax < d ->
          Parse inp = inl (ErrRange (mkRangeError inp "day" 1 dmax d)))
      /\ (1 <= M <= 12 -> 1 <= d <= dmax -> 23 < Scan.h st ->
          Parse inp
          = inl (ErrRange (mkRangeError inp "hour" 0 23 (Scan.h st))))
      /\ (1 <= M <= 12 -> 1 <= d <= dmax -> Scan.h st <= 23 ->
          59 < Scan.m st ->
          Parse inp
          = inl (ErrRange (mkRangeError inp "minute" 0 59 (Scan.m st))))
      /\ (1 <= M <= 12 -> 1 <= d <= dmax -> Scan.h st <= 23 ->
          Scan.m st <= 59 -> 59 < Scan.s st ->
          Parse inp
          = inl (ErrRange (mkRangeError inp "second" 0 59 (Scan.s st))))
      /\ (1 <= M <= 12 -> 1 <= d <= dmax -> Scan.h st <= 23 ->
          Scan.m st <= 59 -> Scan.s st <= 59 ->
          exists t, Parse inp = inr t))
  /\ (forall inp e,
      Parse inp = inl (ErrRange e) ->
      Value e = inp
      /\ In (Element e) ["month"; "day"; "hour"; "minute"; "second"]%string
      /\ ~ (Min e <= Given e <= Max e))
  /\ (forall y, daysIn 2 y
                = if (Z.rem y 4 =? 0)
                     && (negb (Z.rem y 100 =? 0) || (Z.rem y 400 =? 0))
                  then 29 else 28)
  /\ ParseString "2019-02-29T00:00:00.000+00:00"
     = inl (ErrRange (mkRangeError (bytes "2019-02-29T00:00:00.000+00:00")
                                   "day" 1 28 29))
  /\ ParseString "2020-02-30T00:00:00.000+00:00"
     = inl (ErrRange (mkRangeError (bytes "2020-02-30T00:00:00.000+00:00")
                                   "day" 1 29 30))
  /\ ParseString "2019-13-32T24:60:60"
     = inl (ErrRange (mkRangeError (bytes "2019-13-32T24:60:60")
                                   "month" 1 12 13)).
Proof.
  split; [|split; [|split; [|repeat split; reflexivity]]].
  - intros inp st Hf Hp M d dmax.
    rewrite (Parse_validate inp st Hf Hp). unfold validate.
    subst M d dmax.
    repeat split; intros;
      repeat (break_if; try lia); try reflexivity; eauto.
  - intros inp e H.
    destruct (Parse_range_error inp e H) as (st & _ & V).
    unfold validate in V.
    repeat break_if; inversion V; subst; cbn [Value Element Min Max Given In];
      (split; [reflexivity | split; [tauto | lia]]).
  - intros y. reflexivity.
Qed.

Lemma range_validation_order_witness :
  ParseString "2017-01-01T24:60:60"
  = inl (ErrRange (mkRangeError (bytes "2017-01-01T24:60:60") "hour" 0 23 24)).
Proof.
  refine (proj1 (proj2 (proj2 (proj1 range_validation_order
            (bytes "2017-01-01T24:60:60")
            (Scan.mk 2017 1 1 24 60 60 0 1 UTC 60 second) _ _))) _ _ _);
    vm_compute; try reflexivity; intuition discriminate.
Defined.

(** *** The fraction of the second *)

Lemma pow10_succ (n : Z) : 0 <= n -> 10 ^ (n + 1) = 10 * 10 ^ n.
Proof. intros H. rewrite Z.pow_add_r by lia. lia. Qed.

Lemma pow10_pos (n : Z) : 0 <= n -> 0 < 10 ^ n.
Proof. intros H. apply Z.pow_pos_nonneg; lia. Qed.

Lemma pow10_le (n k : Z) : 0 <= n <= k -> 10 ^ n <= 10 ^ k.
Proof. intros H. apply Z.pow_le_mono_r; lia. Qed.

(** One more digit after at most 17: no wrap-around. *)
Lemma digit_accumulate (c v k : Z) :
  0 <= k <= 17 -> 0 <= c < 10 ^ k -> 0 <= v <= 9 ->
  Int.add (Int.mul c 10) v = c * 10 + v
  /\ 0 <= c * 10 + v < 10 ^ (k + 1).
Proof.
  intros Hk Hc Hv.
  pose proof (pow10_le k 17 ltac:(lia)) as H17.
  change (10 ^ 17) with 100000000000000000 in H17.
  rewrite pow10_succ by lia.
  unfold Int.add, Int.mul.
  rewrite (wrap_small (c * 10)) by (unfold Int.in_range; lia).
  rewrite wrap_small by (unfold Int.in_range; lia).
  lia.
Qed.

Lemma fractionInv_init : fractionInv Scan.init.
Proof.
  unfold fractionInv. cbn. repeat split; try lia; discriminate.
Qed.

Lemma fractionInv_digit (st : Scan.state) (v : Z) :
  fractionInv st -> 0 <= v <= 9 ->
  fractionInv
    (let st1 := Scan.setc st (Int.add (Int.mul (Scan.c st) 10) v) in
     if cursorIndex (Scan.p st) =? cursorIndex millisecond
     then Scan.setnfraction st1 (Scan.nfraction st + 1) else st1).
Proof.
  unfold fractionInv. intros (H1 & H2 & H3) Hv. cbv zeta.
  destruct (Scan.p st) eqn:P; cbn -[Z.pow Int.add Int.mul];
    rewrite ?P; try (specialize (H2 ltac:(discriminate)));
    try (repeat split; try lia; try discriminate; intros;
         apply H3; lia).
  split; [lia|]. split; [congruence|]. intros H19.
  destruct (H3 ltac:(lia)) as (Hf & Hc). specialize (Hc eq_refl).
  destruct (digit_accumulate (Scan.c st) v (Scan.nfraction st - 1)
              ltac:(lia) Hc Hv) as (E & B).
  replace (Scan.nfraction st + 1 - 1) with (Scan.nfraction st - 1 + 1)
    by lia.
  rewrite E. split; [|intros _; exact B].
  rewrite pow10_succ by lia.
  pose proof (pow10_pos (Scan.nfraction st - 1) ltac:(lia)). lia.
Qed.

Lemma fractionInv_step (st : Scan.state) (b : byte) (tl : list byte) :
  fractionInv st ->
  match Scan.step st b tl with
  | Scan.Next st' | Scan.Break st' => fractionInv st'
  | Scan.Fail _ => True
  end.
Proof.
  intros Inv. unfold Scan.step.
  destruct (isDigit b) eqn:D.
  - apply isDigit_range in D. apply fractionInv_digit; [exact Inv|].
    unfold charStart. lia.
  - destruct Inv as (H1 & H2 & H3).
    unfold Scan.zoneCase, fractionInv.
    destruct (ParseISOZone (b :: tl)); destruct tl;
      destruct (Scan.p st) eqn:P;
      try (specialize (H2 ltac:(discriminate)));
      repeat break_if; try exact I;
      cbn -[Z.pow]; rewrite ?P;
      (split; [lia|]; split; [try congruence; try lia|]);
      try (intros H19; destruct (H3 H19) as (Hf & Hc);
           try specialize (Hc eq_refl);
           try match type of H2 with _ -> _ => clear H2 end;
           try (rewrite H2 in *; cbn in Hf; cbn);
           split; [lia|]; intros; try discriminate; lia).
Qed.

Lemma fractionInv_loop (rest : list byte) :
  forall st st',
    fractionInv st -> Scan.loop st rest = inr st' -> fractionInv st'.
Proof.
  induction rest as [|b tl IH]; intros st st' Inv; cbn [Scan.loop].
  - intros H. injection H as <-. exact Inv.
  - pose proof (fractionInv_step st b tl Inv) as S.
    destruct (Scan.step st b tl) as [st1|st1|e]; try discriminate.
    + apply IH. exact S.
    + intros H. injection H as <-. exact S.
Qed.

Lemma fractionBound_capture (st : Scan.state) :
  fractionInv st -> fractionBound (Scan.capture st).
Proof.
  unfold fractionInv, fractionBound, Scan.capture.
  intros (H1 & H2 & H3).
  destruct (0 <? Scan.c st); destruct (Scan.p st) eqn:P;
    cbn -[Z.pow]; (split; [lia|]); intros H19; specialize (H3 H19);
    tauto.
Qed.

Lemma fractionBound_fields (inp : list byte) (st : Scan.state) :
  Scan.fields inp = inr st -> fractionBound st.
Proof.
  unfold Scan.fields.
  destruct (Scan.loop Scan.init inp) as [e|st'] eqn:E; [discriminate|].
  intros H. injection H as <-. apply fractionBound_capture.
  eapply fractionInv_loop; [apply fractionInv_init | exact E].
Qed.

Lemma scaleLoop_exact (n : nat) :
  forall f,
    0 <= f -> f * 10 ^ Z.of_nat n < 2 ^ 63 ->
    scaleLoop n f = f * 10 ^ Z.of_nat n.
Proof.
  induction n as [|n IH]; intros f H0 H; cbn [scaleLoop].
  - change (Z.of_nat 0) with 0. lia.
  - rewrite Nat2Z.inj_succ, <- Z.add_1_r, pow10_succ in * by lia.
    pose proof (pow10_pos (Z.of_nat n) ltac:(lia)).
    unfold Int.mul. rewrite wrap_small by (unfold Int.in_range; nia).
    rewrite IH by nia. lia.
Qed.

Lemma nanoseconds_unscaled (f nf : Z) : 10 <= nf -> nanoseconds f nf = f.
Proof.
  intros H. unfold nanoseconds.
  replace (Z.to_nat (10 - nf)) with O by lia. reflexivity.
Qed.

Lemma nanoseconds_exact (f nf : Z) :
  0 <= f < 1000000000 -> 1 <= nf <= 10 ->
  nanoseconds f nf = f * 10 ^ (10 - nf).
Proof.
  intros Hf Hn. unfold nanoseconds.
  pose proof (pow10_le (10 - nf) 9 ltac:(lia)) as H9.
  pose proof (pow10_pos (10 - nf) ltac:(lia)).
  change (10 ^ 9) with 1000000000 in H9.
  rewrite scaleLoop_exact; rewrite ?Z2Nat.id by lia; try lia.
  change (2 ^ 63) with 9223372036854775808. nia.
Qed.

(** ** Formatting *)

Lemma digitsOf_length (n : nat) : forall v, List.length (digitsOf n v) = n.
Proof.
  induction n as [|n IH]; intros v; cbn [digitsOf]; [reflexivity|].
  rewrite length_app, IH. cbn. lia.
Qed.

Lemma digitsOf_range (n : nat) :
  forall v, 0 <= v -> Forall (fun x => 0 <= x <= 9) (digitsOf n v).
Proof.
  induction n as [|n IH]; intros v Hv; cbn [digitsOf]; [constructor|].
  apply Forall_app. split.
  - apply IH. apply Z.div_pos; lia.
  - constructor; [|constructor].
    pose proof (Z.mod_pos_bound v 10). lia.
Qed.

(** Leading zeros: a number below [10^k] written with [j] digits more. *)
Lemma digitsOf_pad (k : nat) :
  forall j v,
    0 <= v < 10 ^ Z.of_nat k ->
    digitsOf (j + k) v = repeat 0 j ++ digitsOf k v.
Proof.
  induction k as [|k IH]; intros j v Hv.
  - change (10 ^ Z.of_nat 0) with 1 in Hv. assert (v = 0) by lia. subst v.
    rewrite Nat.add_0_r, app_nil_r. clear Hv.
    induction j as [|j IHj]; [reflexivity|].
    cbn [digitsOf]. change (0 / 10) with 0. change (0 mod 10) with 0.
    rewrite IHj. change [0] with (repeat 0 1).
    rewrite <- repeat_app. f_equal. lia.
  - rewrite Nat2Z.inj_succ, <- Z.add_1_r, pow10_succ in Hv by lia.
    replace (j + S k)%nat with (S (j + k)) by lia.
    cbn [digitsOf]. rewrite IH.
    + rewrite app_assoc. reflexivity.
    + split; [apply Z.div_pos; lia|].
      apply Z.div_lt_upper_bound; lia.
Qed.

Lemma decimalFrom_S (fuel : nat) (u : Z) (acc : list byte) :
  decimalFrom (S fuel) u acc
  = if u / 10 =? 0 then digitByte (u mod 10) :: acc
    else decimalFrom fuel (u / 10) (digitByte (u mod 10) :: acc).
Proof. reflexivity. Qed.

Lemma decimalFrom_digits (fuel : nat) :
  forall u acc,
    0 <= u < 10 ^ Z.of_nat (S fuel) ->
    exists k,
      (1 <= k <= S fuel)%nat
      /\ u < 10 ^ Z.of_nat k
      /\ (k = 1%nat \/ 10 ^ (Z.of_nat k - 1) <= u)
      /\ decimalFrom (S fuel) u acc = map digitByte (digitsOf k u) ++ acc.
Proof.
  induction fuel as [|fuel IH]; intros u acc Hu.
  - exists 1%nat. change (10 ^ Z.of_nat 1) with 10 in *.
    repeat split; try lia. cbn [decimalFrom].
    destruct (u / 10 =? 0); reflexivity.
  - rewrite decimalFrom_S. destruct (u / 10 =? 0) eqn:E.
    + exists 1%nat. change (10 ^ Z.of_nat 1) with 10.
      assert (u < 10).
      { apply Z.eqb_eq in E.
        pose proof (Z.div_mod u 10 ltac:(lia)).
        pose proof (Z.mod_pos_bound u 10 ltac:(lia)). lia. }
      repeat split; try lia.
    + rewrite (Nat2Z.inj_succ (S fuel)), <- Z.add_1_r, pow10_succ in Hu
        by lia.
      assert (Hq : 0 <= u / 10 < 10 ^ Z.of_nat (S fuel)).
      { split; [apply Z.div_pos; lia|].
        apply Z.div_lt_upper_bound; lia. }
      destruct (IH (u / 10) (digitByte (u mod 10) :: acc) Hq)
        as (k & Hk & Hlt & Hmin & Hd).
      exists (S k).
      pose proof (Z.div_mod u 10 ltac:(lia)) as Hdm.
      pose proof (Z.mod_pos_bound u 10 ltac:(lia)) as Hmb.
      split; [lia|]. split; [|split].
      * rewrite Nat2Z.inj_succ, <- Z.add_1_r, pow10_succ by lia. lia.
      * right. replace (Z.of_nat (S k) - 1) with (Z.of_nat k) by lia.
        destruct Hmin as [-> | Hmin].
        -- change (10 ^ Z.of_nat 1) with 10. apply Z.eqb_neq in E. lia.
        -- replace (Z.of_nat k) with (Z.of_nat k - 1 + 1) by lia.
           rewrite pow10_succ by lia. lia.
      * rewrite Hd. cbn [digitsOf]. rewrite map_app, <- app_assoc.
        reflexivity.
Qed.

(** [appendInt] writes a number below [10^n] with exactly [n] digits. *)
Lemma appendInt_digits (n : nat) (v : Z) :
  (1 <= n <= 20)%nat -> 0 <= v < 10 ^ Z.of_nat n ->
  appendInt v n = map digitByte (digitsOf n v).
Proof.
  intros Hn Hv. unfold appendInt, decimal.
  destruct (v <? 0) eqn:E; [lia|]. cbn [app].
  rewrite Z.abs_eq by lia.
  assert (H20 : 0 <= v < 10 ^ Z.of_nat 20).
  { split; [lia|]. eapply Z.lt_le_trans; [apply Hv|].
    apply pow10_le. lia. }
  destruct (decimalFrom_digits 19 v [] H20) as (k & Hk & Hlt & Hmin & Hd).
  rewrite Hd, app_nil_r, length_map, digitsOf_length.
  assert (Hkn : (k <= n)%nat).
  { destruct Hmin as [-> | Hmin]; [lia|].
    destruct (le_lt_dec k n) as [L|L]; [exact L|].
    pose proof (pow10_le (Z.of_nat n) (Z.of_nat k - 1) ltac:(lia)). lia. }
  replace n with ((n - k) + k)%nat at 2 by lia.
  rewrite digitsOf_pad by lia.
  rewrite map_app. f_equal.
  clear. induction (n - k)%nat as [|j IH]; [reflexivity|].
  cbn [repeat map]. f_equal. exact IH.
Qed.

Lemma trimZeros_snoc (l : list byte) (b : byte) :
  trimZeros (l ++ [b]) = if bval b =? 48 then trimZeros l else l ++ [b].
Proof.
  induction l as [|a l IH]; cbn [app trimZeros].
  - destruct (bval b =? 48); reflexivity.
  - rewrite IH. destruct (bval b =? 48); [reflexivity|].
    destruct l; reflexivity.
Qed.

(** The fraction without its trailing zeros: [k] digits of value [c]. *)
Lemma trimZeros_digits (n : nat) :
  forall v,
    0 <= v < 10 ^ Z.of_nat n -> v <> 0 ->
    exists k c,
      (1 <= k <= n)%nat
      /\ 0 <= c < 10 ^ Z.of_nat k
      /\ v = c * 10 ^ (Z.of_nat n - Z.of_nat k)
      /\ trimZeros (map digitByte (digitsOf n v))
         = map digitByte (digitsOf k c).
Proof.
  induction n as [|n IH]; intros v Hv Hnz.
  - change (10 ^ Z.of_nat 0) with 1 in Hv. lia.
  - cbn [digitsOf]. rewrite map_app. cbn [map]. rewrite trimZeros_snoc.
    pose proof (Z.div_mod v 10 ltac:(lia)) as Hdm.
    pose proof (Z.mod_pos_bound v 10 ltac:(lia)) as Hmb.
    destruct (digitByte_value (v mod 10) ltac:(lia)) as [_ Hb].
    unfold charStart in Hb.
    destruct (bval (digitByte (v mod 10)) =? 48) eqn:E.
    + assert (Hq : 0 <= v / 10 < 10 ^ Z.of_nat n).
      { rewrite Nat2Z.inj_succ, <- Z.add_1_r, pow10_succ in Hv by lia.
        split; [apply Z.div_pos; lia|].
        apply Z.div_lt_upper_bound; lia. }
      destruct (IH (v / 10) Hq ltac:(lia)) as (k & c & Hk & Hc & Hvc & Ht).
      exists k, c. split; [lia|]. split; [exact Hc|]. split; [|exact Ht].
      replace (Z.of_nat (S n) - Z.of_nat k)
        with (Z.of_nat n - Z.of_nat k + 1) by lia.
      rewrite pow10_succ by lia. lia.
    + exists (S n), v. split; [lia|]. split; [exact Hv|].
      rewrite Z.sub_diag. change (10 ^ 0) with 1.
      split; [lia|]. cbn [digitsOf]. rewrite map_app. reflexivity.
Qed.

Lemma accumulate_snoc (c : Z) (ds : list Z) (v : Z) :
  accumulate c (ds ++ [v]) = Int.add (Int.mul (accumulate c ds) 10) v.
Proof. unfold accumulate. rewrite fold_left_app. reflexivity. Qed.

(** Up to 18 digits read from an empty accumulator give their number. *)
Lemma accumulate_digitsOf (n : nat) :
  forall v,
    (n <= 18)%nat -> 0 <= v < 10 ^ Z.of_nat n ->
    accumulate 0 (digitsOf n v) = v.
Proof.
  induction n as [|n IH]; intros v Hn Hv.
  - change (10 ^ Z.of_nat 0) with 1 in Hv. cbn. lia.
  - cbn [digitsOf]. rewrite accumulate_snoc.
    rewrite Nat2Z.inj_succ, <- Z.add_1_r in Hv.
    pose proof (Z.div_mod v 10 ltac:(lia)) as Hdm.
    pose proof (Z.mod_pos_bound v 10 ltac:(lia)) as Hmb.
    assert (Hq : 0 <= v / 10 < 10 ^ Z.of_nat n).
    { rewrite pow10_succ in Hv by lia.
      split; [apply Z.div_pos; lia|].
      apply Z.div_lt_upper_bound; lia. }
    rewrite IH by (try lia; exact Hq).
    destruct (digit_accumulate (v / 10) (v mod 10) (Z.of_nat n)
                ltac:(lia) Hq ltac:(lia)) as [E _].
    rewrite E. lia.
Qed.

Lemma Scan_step_digitByte (st : Scan.state) (v : Z) (tl : list byte) :
  0 <= v <= 9 ->
  Scan.step st (digitByte v) tl = Scan.Next (afterDigits st [v]).
Proof.
  intros Hv. destruct (digitByte_value v Hv) as [D E].
  unfold Scan.step. rewrite D, E.
  destruct st as [Y M d h m s f nf l c p]. destruct p; reflexivity.
Qed.

Lemma afterDigits_cons (st : Scan.state) (v : Z) (ds : list Z) :
  afterDigits (afterDigits st [v]) ds = afterDigits st (v :: ds).
Proof.
  destruct st as [Y M d h m s f nf l c p].
  unfold afterDigits. cbn -[len accumulate]. f_equal.
  destruct p; try reflexivity.
  rewrite !len_cons. change (len []) with 0. lia.
Qed.

Lemma Scan_advance_digits (ds : list Z) (post : list byte) :
  forall st,
    Forall (fun x => 0 <= x <= 9) ds ->
    Scan.advance st (map digitByte ds) post = Some (afterDigits st ds).
Proof.
  induction ds as [|v ds IH]; intros st H.
  - cbn. destruct st as [Y M d h m s f nf l c p].
    unfold afterDigits. cbn. destruct p; rewrite ?Z.add_0_r; reflexivity.
  - inversion H as [|? ? Hv Hds]; subst.
    cbn [map Scan.advance]. rewrite Scan_step_digitByte by exact Hv.
    rewrite IH by exact Hds. rewrite afterDigits_cons. reflexivity.
Qed.

Lemma Scan_loop_digits (st : Scan.state) (ds : list Z) (rest : list byte) :
  Forall (fun x => 0 <= x <= 9) ds ->
  Scan.loop st (map digitByte ds ++ rest)
  = Scan.loop (afterDigits st ds) rest.
Proof.
  intros H. apply Scan_loop_advance. apply Scan_advance_digits. exact H.
Qed.

(** A field of [n] digits read from an empty accumulator. *)
Lemma Scan_loop_field (n : nat) (v : Z) (rest : list byte)
      (Y M d h m s f nf : Z) (l : Location) (p : Cursor) :
  (n <= 18)%nat -> 0 <= v < 10 ^ Z.of_nat n ->
  Scan.loop (Scan.mk Y M d h m s f nf l 0 p)
            (map digitByte (digitsOf n v) ++ rest)
  = Scan.loop (Scan.mk Y M d h m s f
                       (match p with
                        | millisecond => nf + Z.of_nat n
                        | _ => nf
                        end) l v p) rest.
Proof.
  intros Hn Hv. rewrite Scan_loop_digits by (apply digitsOf_range; lia).
  unfold afterDigits. cbn -[len accumulate Z.pow].
  rewrite accumulate_digitsOf by assumption.
  unfold len. rewrite digitsOf_length. reflexivity.
Qed.

(** *** The separators between the fields *)

Section Separators.

Variables (Y M d h m s f nf c : Z) (l : Location) (rest : list byte).

Lemma loop_hyphen_year :
  Scan.loop (Scan.mk Y M d h m s f nf l c year) (byteOf 45 :: rest)
  = Scan.loop (Scan.mk c M d h m s f nf l 0 month) rest.
Proof. reflexivity. Qed.

Lemma loop_hyphen_month :
  Scan.loop (Scan.mk Y M d h m s f nf l c month) (byteOf 45 :: rest)
  = Scan.loop (Scan.mk Y c d h m s f nf l 0 day) rest.
Proof. reflexivity. Qed.

Lemma loop_T_day :
  Scan.loop (Scan.mk Y M d h m s f nf l c day) (byteOf 84 :: rest)
  = Scan.loop (Scan.mk Y M c h m s f nf l 0 hour) rest.
Proof. reflexivity. Qed.

Lemma loop_colon_hour :
  Scan.loop (Scan.mk Y M d h m s f nf l c hour) (byteOf 58 :: rest)
  = Scan.loop (Scan.mk Y M d c m s f nf l 0 minute) rest.
Proof. reflexivity. Qed.

Lemma loop_colon_minute :
  Scan.loop (Scan.mk Y M d h m s f nf l c minute) (byteOf 58 :: rest)
  = Scan.loop (Scan.mk Y M d h c s f nf l 0 second) rest.
Proof. reflexivity. Qed.

Lemma loop_dot_second :
  Scan.loop (Scan.mk Y M d h m s f nf l c second) (byteOf 46 :: rest)
  = Scan.loop (Scan.mk Y M d h m c f nf l 0 millisecond) rest.
Proof. reflexivity. Qed.

Lemma loop_Z_second :
  Scan.loop (Scan.mk Y M d h m s f nf l c second) [byteOf 90]
  = inr (Scan.mk Y M d h m c f nf l 0 second).
Proof. reflexivity. Qed.

Lemma loop_Z_fraction :
  Scan.loop (Scan.mk Y M d h m s f nf l c millisecond) [byteOf 90]
  = inr (Scan.mk Y M d h m s c nf l 0 millisecond).
Proof. reflexivity. Qed.

Lemma loop_zone_second (sg : Z) (l' : Location) :
  sg = 43 \/ sg = 45 ->
  ParseISOZone (byteOf sg :: rest) = inr l' ->
  Scan.loop (Scan.mk Y M d h m s f nf l c second) (byteOf sg :: rest)
  = inr (Scan.mk Y M d h m c f nf l' 0 second).
Proof.
  intros [-> | ->] H;
    [change (byteOf 43) with x2b in * | change (byteOf 45) with x2d in *];
    cbn [Scan.loop]; unfold Scan.step, Scan.zoneCase;
    cbn -[ParseISOZone]; rewrite H; reflexivity.
Qed.

Lemma loop_zone_fraction (sg : Z) (l' : Location) :
  sg = 43 \/ sg = 45 ->
  ParseISOZone (byteOf sg :: rest) = inr l' ->
  Scan.loop (Scan.mk Y M d h m s f nf l c millisecond) (byteOf sg :: rest)
  = inr (Scan.mk Y M d h m s c nf l' 0 millisecond).
Proof.
  intros [-> | ->] H;
    [change (byteOf 43) with x2b in * | change (byteOf 45) with x2d in *];
    cbn [Scan.loop]; unfold Scan.step, Scan.zoneCase;
    cbn -[ParseISOZone]; rewrite H; reflexivity.
Qed.

End Separators.

(** The counter and the accumulator are those of the text: after the start
    of the fraction, [n] digits that write [v] and a closing [Z] leave the
    fraction [v] and the counter [1 + n]. *)
Lemma fraction_digits_counted (n : nat) (v Y M d h m s f : Z)
      (l : Location) :
  (n <= 18)%nat -> 0 <= v < 10 ^ Z.of_nat n ->
  Scan.loop (Scan.mk Y M d h m s f 1 l 0 millisecond)
            (map digitByte (digitsOf n v) ++ [byteOf 90])
  = inr (Scan.mk Y M d h m s v (1 + Z.of_nat n) l 0 millisecond).
Proof.
  intros Hn Hv. rewrite Scan_loop_field by assumption.
  apply loop_Z_fraction.
Qed.

(** *** The fraction as the scan reads it *)

Lemma fractionInv_advance (pre : list byte) :
  forall post st st',
    fractionInv st -> Scan.advance st pre post = Some st' -> fractionInv st'.
Proof.
  induction pre as [|b tl IH]; intros post st st' Inv; cbn [Scan.advance].
  - intros H. injection H as <-. exact Inv.
  - pose proof (fractionInv_step st b (tl ++ post) Inv) as S.
    destruct (Scan.step st b (tl ++ post)) as [st1|st1|e];
      try discriminate.
    apply IH. exact S.
Qed.

(** After a prefix that leaves the cursor on the second, the point and the
    digits [ds] leave the counter at [1 + len ds] and the accumulator at
    [accumulate 0 ds]; nothing is stored yet. *)
Lemma fraction_loop (pre tail : list byte) (ds : list Z) (st : Scan.state) :
  Forall (fun v => 0 <= v <= 9) ds ->
  Scan.advance Scan.init pre (fractionText ds ++ tail) = Some st ->
  Scan.p st = second ->
  Scan.loop Scan.init (pre ++ fractionText ds ++ tail)
  = Scan.loop (Scan.mk (Scan.Y st) (Scan.M st) (Scan.d st) (Scan.h st)
                       (Scan.m st) (Scan.c st) 0 (1 + len ds) (Scan.loc st)
                       (accumulate 0 ds) millisecond) tail.
Proof.
  intros D A P.
  pose proof (fractionInv_advance pre _ _ _ fractionInv_init A)
    as (I1 & I2 & I3).
  rewrite (Scan_loop_advance _ _ _ _ A).
  specialize (I2 ltac:(rewrite P; discriminate)).
  specialize (I3 ltac:(lia)). destruct I3 as (I3 & _).
  rewrite I2 in I3. change (10 ^ (1 - 1)) with 1 in I3.
  destruct st as [Y M d h m s f nf l c p].
  cbn [Scan.Y Scan.M Scan.d Scan.h Scan.m Scan.s Scan.fraction
       Scan.nfraction Scan.loc Scan.c Scan.p] in *.
  subst p nf. assert (f = 0) by lia. subst f.
  unfold fractionText. cbn [app].
  rewrite loop_dot_second, Scan_loop_digits by exact D.
  unfold afterDigits, len.
  cbn [Scan.Y Scan.M Scan.d Scan.h Scan.m Scan.s Scan.fraction
       Scan.nfraction Scan.loc Scan.c Scan.p].
  reflexivity.
Qed.

(** What Parse makes of the fraction stored by the scan: the guard tests the
    stored value as it is, and the loop scales it by [10 - nfraction] powers
    of ten, by none when ten digits or more were counted. *)
Lemma Parse_fraction (inp : list byte) (st : Scan.state) :
  Scan.fields inp = inr st -> 1 <= Scan.nfraction st ->
  (Parse inp = inl ErrPrecision
   <-> Scan.fraction st < 0 \/ 10 ^ 9 <= Scan.fraction st)
  /\ (forall t, Parse inp = inr t ->
                Nanosecond t
                = if Scan.nfraction st - 1 <=? 9
                  then Scan.fraction st * 10 ^ (9 - (Scan.nfraction st - 1))
                  else Scan.fraction st).
Proof.
  intros F N. change (10 ^ 9) with 1000000000. unfold Parse. rewrite F.
  destruct ((Scan.fraction st <? 0) || (1000000000 <=? Scan.fraction st))
           eqn:E.
  - split; [split; [lia | reflexivity] | discriminate].
  - split; [split; [|lia]; destruct (validate inp st); discriminate|].
    intros t. destruct (validate inp st); [discriminate|].
    intros H. injection H as <-. cbn [Nanosecond].
    destruct (Scan.nfraction st - 1 <=? 9) eqn:K.
    + rewrite nanoseconds_exact by lia.
      replace (10 - Scan.nfraction st) with (9 - (Scan.nfraction st - 1))
        by lia.
      reflexivity.
    + apply nanoseconds_unscaled. lia.
Qed.

(** C3: the code breaks the claim.  After any prefix that leaves the cursor
    on the second, let [k] be the number of the fraction digits [ds] and
    [c] the value accumulated for them.  Parse scales [c] to [c * 10^(9-k)]
    only for [k <= 9]: with ten digits or more the accepted nanoseconds are
    [c] itself, and ErrPrecision is returned exactly when the unscaled [c],
    once stored, is outside [0, 1e9).  So [.0123456789Z] is accepted with
    the nanoseconds 123456789 of [.123456789Z], ten times what is written,
    and [.0000000001] with 1, although both have too many digits.  At the
    end of the input [c] is stored only when it is positive: nineteen
    digits 9, which the accumulator wraps to a negative number, are
    accepted as no fraction at all. *)
Theorem fraction_unscaled_past_nine_digits :
  (forall pre ds tail st,
      Forall (fun v => 0 <= v <= 9) ds ->
      Scan.advance Scan.init pre (fractionText ds ++ tail) = Some st ->
      Scan.p st = second ->
      closesFraction tail ->
      let k := len ds in
      let c := accumulate 0 ds in
      (Parse (pre ++ fractionText ds ++ tail) = inl ErrPrecision
       <-> c < 0 \/ 10 ^ 9 <= c)
      /\ (forall t,
             Parse (pre ++ fractionText ds ++ tail) = inr t ->
             Nanosecond t = if k <=? 9 then c * 10 ^ (9 - k) else c))
  /\ (forall pre ds st,
      Forall (fun v => 0 <= v <= 9) ds ->
      Scan.advance Scan.init pre (fractionText ds) = Some st ->
      Scan.p st = second ->
      let k := len ds in
      let c := accumulate 0 ds in
      (Parse (pre ++ fractionText ds) = inl ErrPrecision <-> 10 ^ 9 <= c)
      /\ (forall t,
             Parse (pre ++ fractionText ds) = inr t ->
             Nanosecond t
             = if c <? 0 then 0
               else if k <=? 9 then c * 10 ^ (9 - k) else c))
  /\ ParseString "2017-04-24T09:41:34.0123456789Z"
     = inr (Date 2017 4 24 9 41 34 123456789 UTC)
  /\ ParseString "2017-04-24T09:41:34.123456789Z"
     = inr (Date 2017 4 24 9 41 34 123456789 UTC)
  /\ ParseString "2017-04-24T09:41:34.0000000001"
     = inr (Date 2017 4 24 9 41 34 1 UTC)
  /\ ParseString "2017-04-24T09:41:34.1234567890Z" = inl ErrPrecision
  /\ ParseString "2017-04-24T09:41:34.9999999999999999999"
     = inr (Date 2017 4 24 9 41 34 0 UTC)
  /\ ParseString "2017-04-24T09:41:34.9999999999999999999Z"
     = inl ErrPrecision.
Proof.
  split; [|split; [|repeat split; vm_compute; reflexivity]].
  - intros pre ds tail st D A P T k c. subst k c.
    pose proof (len_nonneg ds) as L.
    assert (F : exists l,
               Scan.fields (pre ++ fractionText ds ++ tail)
               = inr (Scan.mk (Scan.Y st) (Scan.M st) (Scan.d st)
                              (Scan.h st) (Scan.m st) (Scan.c st)
                              (accumulate 0 ds) (1 + len ds) l
                              0 millisecond)).
    { unfold Scan.fields. rewrite (fraction_loop _ _ _ _ D A P).
      destruct T as [->|(sg & rest & l & -> & S & Z)].
      - rewrite loop_Z_fraction. eexists. reflexivity.
      - erewrite loop_zone_fraction by eassumption.
        eexists. reflexivity. }
    destruct F as (l & F).
    destruct (Parse_fraction _ _ F) as [E N];
      cbn [Scan.fraction Scan.nfraction] in *; [lia|].
    replace (1 + len ds - 1) with (len ds) in N by lia.
    split; [exact E | exact N].
  - intros pre ds st D A P k c. subst k c.
    pose proof (len_nonneg ds) as L.
    assert (A' : Scan.advance Scan.init pre (fractionText ds ++ [])
                 = Some st) by (rewrite app_nil_r; exact A).
    assert (F : Scan.fields (pre ++ fractionText ds)
                = inr (Scan.mk (Scan.Y st) (Scan.M st) (Scan.d st)
                               (Scan.h st) (Scan.m st) (Scan.c st)
                               (if 0 <? accumulate 0 ds
                                then accumulate 0 ds else 0)
                               (1 + len ds) (Scan.loc st)
                               (accumulate 0 ds) millisecond)).
    { unfold Scan.fields.
      rewrite <- (app_nil_r (fractionText ds)).
      rewrite (fraction_loop _ _ _ _ D A' P).
      cbn [Scan.loop]. unfold Scan.capture.
      cbn [Scan.c Scan.p]. destruct (0 <? accumulate 0 ds); reflexivity. }
    destruct (Parse_fraction _ _ F) as [E N];
      cbn [Scan.fraction Scan.nfraction] in *; [lia|].
    replace (1 + len ds - 1) with (len ds) in N by lia.
    change (10 ^ 9) with 1000000000 in *.
    split.
    + rewrite E. destruct (0 <? accumulate 0 ds) eqn:C; lia.
    + intros t Ht. rewrite (N t Ht).
      destruct (0 <? accumulate 0 ds) eqn:C;
        destruct (accumulate 0 ds <? 0) eqn:C'; try lia; try reflexivity.
      * destruct (len ds <=? 9); lia.
      * assert (Z0 : accumulate 0 ds = 0) by lia. rewrite Z0.
        destruct (len ds <=? 9); reflexivity.
Qed.

Lemma fraction_unscaled_past_nine_digits_witness :
  let pre := bytes "2017-04-24T09:41:34" in
  let ds := [0; 1; 2; 3; 4; 5; 6; 7; 8; 9] in
  let tail := bytes "+01:00" in
  (Parse (pre ++ fractionText ds ++ tail) = inl ErrPrecision
   <-> accumulate 0 ds < 0 \/ 10 ^ 9 <= accumulate 0 ds)
  /\ (forall t,
         Parse (pre ++ fractionText ds ++ tail) = inr t ->
         Nanosecond t
         = if len ds <=? 9 then accumulate 0 ds * 10 ^ (9 - len ds)
           else accumulate 0 ds).
Proof.
  refine (proj1 fraction_unscaled_past_nine_digits
            (bytes "2017-04-24T09:41:34") [0; 1; 2; 3; 4; 5; 6; 7; 8; 9]
            (bytes "+01:00")
            (Scan.mk 2017 4 24 9 41 0 0 1 UTC 34 second) _ eq_refl eq_refl _).
  - repeat constructor; lia.
  - right. exists 43, (bytes "01:00"), (FixedZone (bytes "+01:00") 3600).
    split; [reflexivity|]. split; [left; reflexivity | reflexivity].
Defined.

(** *** The zone written by the format *)

Lemma digitsOf_two (v : Z) :
  0 <= v < 100 -> digitsOf 2 v = [v / 10; v mod 10].
Proof.
  intros H. cbn [digitsOf app]. f_equal.
  apply Z.mod_small. split; [apply Z.div_pos; lia|].
  apply Z.div_lt_upper_bound; lia.
Qed.

Lemma zoneGroups_hhmm (a b c d : Z) :
  0 <= a <= 9 -> 0 <= b <= 9 -> 0 <= c <= 9 -> 0 <= d <= 9 ->
  zoneGroups [digitByte a; digitByte b; byteOf 58; digitByte c; digitByte d]
  = Some (10 * a + b, 10 * c + d, 0).
Proof.
  intros Ha Hb Hc Hd.
  destruct (digitByte_value a Ha) as [Da Ea].
  destruct (digitByte_value b Hb) as [Db Eb].
  destruct (digitByte_value c Hc) as [Dc Ec].
  destruct (digitByte_value d Hd) as [Dd Ed].
  unfold zoneGroups, group, colon, digitValue.
  rewrite Da, Db, Dc, Dd, Ea, Eb, Ec, Ed. reflexivity.
Qed.

Lemma appendZone_parse (offset : Z) :
  offset <> 0 -> minuteZone offset ->
  exists sg rest l,
    appendZone offset = byteOf sg :: rest
    /\ (sg = 43 \/ sg = 45)
    /\ ParseISOZone (byteOf sg :: rest) = inr l
    /\ zoneOffset l = offset.
Proof.
  intros Hnz [Hrem Hrange]. unfold appendZone.
  destruct (offset =? 0) eqn:E0; [lia|].
  pose proof (Z.quot_rem' offset 60) as Hq. rewrite Hrem in Hq.
  set (zone := Z.quot offset 60) in *.
  set (a := Z.abs zone).
  assert (Ha : 0 < a < 6000) by lia.
  rewrite (Z.quot_div_nonneg a 60), (Z.rem_mod_nonneg a 60) by lia.
  pose proof (Z.div_mod a 60 ltac:(lia)) as Hdm.
  pose proof (Z.mod_pos_bound a 60 ltac:(lia)) as Hmb.
  assert (Hh : 0 <= a / 60 < 100).
  { split; [apply Z.div_pos; lia|]. apply Z.div_lt_upper_bound; lia. }
  set (hh := a / 60) in *. set (mm := a mod 60) in *.
  rewrite (appendInt_digits 2 hh), (appendInt_digits 2 mm)
    by (try lia; change (10 ^ Z.of_nat 2) with 100; lia).
  rewrite (digitsOf_two hh), (digitsOf_two mm) by lia.
  cbn [map app].
  pose proof (Z.div_mod hh 10 ltac:(lia)) as Hdh.
  pose proof (Z.mod_pos_bound hh 10 ltac:(lia)) as Hbh.
  pose proof (Z.div_mod mm 10 ltac:(lia)) as Hdmm.
  pose proof (Z.mod_pos_bound mm 10 ltac:(lia)) as Hbm.
  assert (Hh1 : 0 <= hh / 10 <= 9).
  { split; [apply Z.div_pos; lia|].
    enough (hh / 10 < 10) by lia. apply Z.div_lt_upper_bound; lia. }
  assert (Hm1 : 0 <= mm / 10 <= 9).
  { split; [apply Z.div_pos; lia|].
    enough (mm / 10 < 10) by lia. apply Z.div_lt_upper_bound; lia. }
  pose proof (zoneGroups_hhmm (hh / 10) (hh mod 10) (mm / 10) (mm mod 10)
                Hh1 ltac:(lia) Hm1 ltac:(lia)) as G.
  destruct (zone <? 0) eqn:Es.
  - pose proof (ParseISOZone_groups Hyphen _ _ _ _ G) as P.
    cbn [signBytes negative app andb] in P.
    destruct ((10 * (hh / 10) + hh mod 10) * 3600
              + (10 * (mm / 10) + mm mod 10) * 60 + 0 =? 0) eqn:Ez; [lia|].
    eexists 45, _, _. split; [reflexivity|]. split; [now right|].
    split; [exact P|]. cbn [zoneOffset]. unfold offsetOf. lia.
  - pose proof (ParseISOZone_groups Plus _ _ _ _ G) as P.
    cbn [signBytes negative app andb] in P.
    eexists 43, _, _. split; [reflexivity|]. split; [now left|].
    split; [exact P|]. cbn [zoneOffset]. unfold offsetOf. lia.
Qed.

Lemma daysIn_max (mo y : Z) : 28 <= daysIn mo y <= 31.
Proof.
  unfold daysIn. repeat break_if; lia.
Qed.

Lemma validate_in_range (inp : list byte) (st : Scan.state) :
  1 <= Scan.M st <= 12 ->
  1 <= Scan.d st <= daysIn (Scan.M st) (Scan.Y st) ->
  Scan.h st <= 23 -> Scan.m st <= 59 -> Scan.s st <= 59 ->
  validate inp st = None.
Proof.
  intros HM Hd Hh Hm Hs. unfold validate.
  repeat (break_if; try lia). reflexivity.
Qed.

(** *** The round trip *)

Lemma appendNano_digits (ns : Z) :
  0 < ns < 1000000000 ->
  exists k c,
    (1 <= k <= 9)%nat
    /\ 0 <= c < 10 ^ Z.of_nat k
    /\ ns = c * 10 ^ (9 - Z.of_nat k)
    /\ appendNano ns 9 = byteOf 46 :: map digitByte (digitsOf k c).
Proof.
  intros H. unfold appendNano.
  destruct (ns =? 0) eqn:E; [lia|].
  rewrite appendInt_digits
    by (try lia; change (10 ^ Z.of_nat 9) with 1000000000; lia).
  rewrite firstn_all2 by (rewrite length_map, digitsOf_length; lia).
  destruct (trimZeros_digits 9 ns) as (k & c & Hk & Hc & Hv & Ht);
    [change (10 ^ Z.of_nat 9) with 1000000000; lia | lia |].
  exists k, c. split; [exact Hk|]. split; [exact Hc|]. split; [exact Hv|].
  rewrite Ht.
  destruct (map digitByte (digitsOf k c)) as [|x t] eqn:Em; [|reflexivity].
  apply (f_equal (@List.length byte)) in Em.
  rewrite length_map, digitsOf_length in Em. cbn in Em. lia.
Qed.

(** The scan of what the format writes after the seconds. *)
Lemma Scan_loop_tail (Y M D h m s ns offset : Z) :
  0 <= ns < 1000000000 -> minuteZone offset ->
  exists c nf l p,
    Scan.loop (Scan.mk Y M D h m 0 0 1 UTC s second)
              (appendNano ns 9 ++ appendZone offset)
    = inr (Scan.mk Y M D h m s c nf l 0 p)
    /\ 1 <= nf <= 10
    /\ 0 <= c < 1000000000
    /\ c * 10 ^ (10 - nf) = ns
    /\ zoneOffset l = offset.
Proof.
  intros Hns Hz.
  destruct (Z.eq_dec ns 0) as [-> | Hnz].
  - change (appendNano 0 9) with (@nil byte). cbn [app].
    destruct (Z.eq_dec offset 0) as [-> | Hoff].
    + change (appendZone 0) with [byteOf 90]. rewrite loop_Z_second.
      exists 0, 1, UTC, second. repeat split; try reflexivity; lia.
    + destruct (appendZone_parse offset Hoff Hz)
        as (sg & rest & l & -> & Hsg & Hp & Hl).
      rewrite (loop_zone_second _ _ _ _ _ _ _ _ _ _ _ sg l Hsg Hp).
      exists 0, 1, l, second. repeat split; try reflexivity; lia.
  - destruct (appendNano_digits ns ltac:(lia))
      as (k & c & Hk & Hc & Hv & ->).
    cbn [app]. rewrite loop_dot_second, Scan_loop_field by (lia || exact Hc).
    assert (H9 : 10 ^ Z.of_nat k <= 10 ^ 9) by (apply pow10_le; lia).
    change (10 ^ 9) with 1000000000 in H9.
    replace (10 - (1 + Z.of_nat k)) with (9 - Z.of_nat k) by lia.
    destruct (Z.eq_dec offset 0) as [-> | Hoff].
    + change (appendZone 0) with [byteOf 90]. rewrite loop_Z_fraction.
      exists c, (1 + Z.of_nat k), UTC, millisecond.
      replace (10 - (1 + Z.of_nat k)) with (9 - Z.of_nat k) by lia.
      repeat split; try reflexivity; lia.
    + destruct (appendZone_parse offset Hoff Hz)
        as (sg & rest & l & -> & Hsg & Hp & Hl).
      rewrite (loop_zone_fraction _ _ _ _ _ _ _ _ _ _ _ sg l Hsg Hp).
      exists c, (1 + Z.of_nat k), l, millisecond.
      replace (10 - (1 + Z.of_nat k)) with (9 - Z.of_nat k) by lia.
      repeat split; try reflexivity; lia.
Qed.

(** C9, as stated, fails: the instant 2017-04-24T09:41:34 in the zone
    [+05:01:01], a zone that ParseISOZone yields, has every field within
    bounds; its text at full precision is [2017-04-24T09:41:34+05:01], for
    the format writes the hours and the minutes of a zone only, and decoding
    it gives the offset 18060, not 18061. *)
Lemma roundTrip_fails :
  let x := Date 2017 4 24 9 41 34 0 (FixedZone (bytes "+05:01:01") 18061) in
  ParseISOZone (bytes "+05:01:01") = inr (Loc x)
  /\ validTime x
  /\ ~ roundTrip x.
Proof.
  cbv zeta. split; [reflexivity|]. split.
  - unfold validTime. cbn. lia.
  - intros (b & y & Hb & Hy & S).
    vm_compute in Hb. injection Hb as <-.
    vm_compute in Hy. injection Hy as <-.
    destruct S as (_ & _ & _ & _ & _ & _ & _ & S). cbn in S. discriminate.
Qed.

(** C9, amended: for every instant whose calendar fields are within bounds
    (the year in [0,9999]) and whose zone offset is a whole number of
    minutes below 100 hours either way, MarshalText at full precision
    succeeds and Parse of its text succeeds and gives back the year, month,
    day, hour, minute, second, nanoseconds and zone offset of the
    instant. *)
Theorem round_trip_minute_zone (x : Time) :
  validTime x -> minuteZone (zoneOffset (Loc x)) -> roundTrip x.
Proof.
  destruct x as [Y M D h m s ns l].
  unfold validTime, roundTrip, MarshalText. cbn [Year Month Day Hour Minute
    Second Nanosecond Loc].
  intros (HY & HM & HD & Hh & Hm & Hs & Hns) Hz.
  destruct ((Y <? 0) || (10000 <=? Y)) eqn:EY; [lia|].
  destruct (Scan_loop_tail Y M D h m s ns (zoneOffset l) Hns Hz)
    as (c & nf & l' & p & Hloop & Hnf & Hc & Hscale & Hl).
  exists (AppendFormat (Date Y M D h m s ns l) RFC3339Nano),
         (Date Y M D h m s ns l').
  split; [reflexivity|]. split.
  - assert (F : Scan.fields (AppendFormat (Date Y M D h m s ns l) RFC3339Nano)
                = inr (Scan.mk Y M D h m s c nf l' 0 p)).
    { unfold Scan.fields, AppendFormat.
      cbn [Year Month Day Hour Minute Second Nanosecond Loc fractionDigits].
      rewrite (appendInt_digits 4 Y), (appendInt_digits 2 M),
        (appendInt_digits 2 D), (appendInt_digits 2 h),
        (appendInt_digits 2 m), (appendInt_digits 2 s)
        by (try lia; try change (10 ^ Z.of_nat 2) with 100;
            try change (10 ^ Z.of_nat 4) with 10000;
            try lia; pose proof (daysIn_max M Y); lia).
      change Scan.init with (Scan.mk 0 0 0 0 0 0 0 1 UTC 0 year).
      rewrite Scan_loop_field, loop_hyphen_year
        by (try lia; change (10 ^ Z.of_nat 4) with 10000; lia).
      rewrite Scan_loop_field, loop_hyphen_month
        by (try lia; change (10 ^ Z.of_nat 2) with 100; lia).
      rewrite Scan_loop_field, loop_T_day
        by (try lia; change (10 ^ Z.of_nat 2) with 100;
            pose proof (daysIn_max M Y); lia).
      rewrite Scan_loop_field, loop_colon_hour
        by (try lia; change (10 ^ Z.of_nat 2) with 100; lia).
      rewrite Scan_loop_field, loop_colon_minute
        by (try lia; change (10 ^ Z.of_nat 2) with 100; lia).
      rewrite Scan_loop_field
        by (try lia; change (10 ^ Z.of_nat 2) with 100; lia).
      rewrite Hloop. reflexivity. }
    rewrite (Parse_validate _ _ F) by (unfold precisionOk; cbn; lia).
    rewrite validate_in_range by (cbn; lia).
    cbn [Scan.Y Scan.M Scan.d Scan.h Scan.m Scan.s Scan.fraction
         Scan.nfraction Scan.loc].
    rewrite nanoseconds_exact by lia. rewrite Hscale. reflexivity.
  - unfold sameFields. cbn. repeat split; try reflexivity. exact Hl.
Qed.

Lemma round_trip_minute_zone_witness :
  roundTrip (Date 2017 4 26 11 13 4 123456789
                  (FixedZone (bytes "-05:30") (-19800))).
Proof.
  apply round_trip_minute_zone.
  - unfold validTime. cbn. lia.
  - unfold minuteZone. cbn. lia.
Defined.

(** ** The JSON decoder *)

Lemma null_iff (b : list byte) :
  null b = true <->
  len b = 4 /\ (bval (at_ b 0) = 110 \/ bval (at_ b 1) = 117
                \/ bval (at_ b 2) = 108 \/ bval (at_ b 3) = 108).
Proof.
  unfold null.
  destruct (len b =? 4) eqn:E; cbn [negb].
  - destruct (bval (at_ b 0) =? 110) eqn:E0;
    destruct (bval (at_ b 1) =? 117) eqn:E1;
    destruct (bval (at_ b 2) =? 108) eqn:E2;
    destruct (bval (at_ b 3) =? 108) eqn:E3; cbn [negb andb];
      split; try discriminate; try lia.
  - split; [discriminate | lia].
Qed.

(** C2: the code breaks the claim.  [null] takes every 4-byte payload that
    agrees with [null] in at least one position for the null token, and
    UnmarshalJSON returns success on it with the destination unchanged: so
    on the payload [nope], which is neither the null token nor a quoted
    string and should be ErrNotString, and on a quoted 4-byte string such as
    ["ul"], which is not handed to Parse. *)
Theorem null_accepts_other_payloads :
  (forall t b,
      len b = 4 ->
      bval (at_ b 0) = 110 \/ bval (at_ b 1) = 117
      \/ bval (at_ b 2) = 108 \/ bval (at_ b 3) = 108 ->
      UnmarshalJSON t b = Returns (t, None))
  /\ (forall t, UnmarshalJSON t (bytes "nope") = Returns (t, None))
  /\ (forall t, UnmarshalJSON t (quote :: bytes "ul" ++ [quote])
                = Returns (t, None))
  /\ (forall t, UnmarshalJSON t (bytes "null") = Returns (t, None))
  /\ (forall t, UnmarshalJSON t (bytes "123")
                = Returns (t, Some ErrNotString)).
Proof.
  split; [|repeat split; intros t; reflexivity].
  intros t b H4 H. unfold UnmarshalJSON.
  rewrite (proj2 (null_iff b) (conj H4 H)). reflexivity.
Qed.

(** Apart from that, a payload between two quote characters is decoded by
    Parse from what stands between them. *)
Lemma UnmarshalJSON_quoted (t : Time) (s : list byte) :
  null (quote :: s ++ [quote]) = false ->
  UnmarshalJSON t (quote :: s ++ [quote])
  = match Parse s with
    | inr parsed => Returns (parsed, None)
    | inl err => Returns (zeroTime, Some err)
    end.
Proof.
  intros N. unfold UnmarshalJSON. rewrite N.
  assert (L : len (quote :: s ++ [quote]) = len s + 2).
  { rewrite len_cons, len_app. change (len [quote]) with 1. lia. }
  pose proof (len_nonneg s) as Hs.
  rewrite L. replace (len s + 2 - 1) with (len s + 1) by lia.
  assert (A : at_ (quote :: s ++ [quote]) (len s + 1) = quote).
  { unfold at_, len. replace (Z.to_nat (Z.of_nat (List.length s) + 1))
      with (S (List.length s)) by lia.
    cbn [nth]. apply nth_middle. }
  assert (S : slice (quote :: s ++ [quote]) 1 (len s + 1) = Some s).
  { unfold slice. rewrite L.
    destruct ((0 <=? 1) && (1 <=? len s + 1) && (len s + 1 <=? len s + 2))
             eqn:E; [|lia].
    f_equal. unfold drop, len.
    change (skipn (Z.to_nat 1) (quote :: s ++ [quote])) with (s ++ [quote]).
    replace (Z.to_nat (Z.of_nat (List.length s) + 1 - 1))
      with (List.length s + 0)%nat by lia.
    rewrite firstn_app_2. cbn [firstn]. apply app_nil_r. }
  rewrite A, S.
  destruct (0 <? len s + 2) eqn:E; [|lia]. reflexivity.
Qed.

Lemma slice_panics (b : list byte) (lo hi : Z) :
  slice b lo hi = None <-> ~ (0 <= lo <= hi /\ hi <= len b).
Proof.
  unfold slice.
  destruct ((0 <=? lo) && (lo <=? hi) && (hi <=? len b)) eqn:E.
  - split; [discriminate | lia].
  - split; [lia | reflexivity].
Qed.

(** C10: the code breaks the claim.  UnmarshalJSON panics on the 1-byte
    payload that is a single quote character: the slice expression
    [b[1:len(b)-1]] is [b[1:0]] there.  It is the only payload on which the
    call panics. *)
Theorem UnmarshalJSON_panics_on_single_quote :
  forall t b, UnmarshalJSON t b = Panics <-> b = [quote].
Proof.
  intros t b. split.
  - unfold UnmarshalJSON.
    destruct (null b); [discriminate|].
    destruct ((0 <? len b) && (bval (at_ b 0) =? 34)
              && (bval (at_ b (len b - 1)) =? 34)) eqn:C; [|discriminate].
    destruct (slice b 1 (len b - 1)) as [b'|] eqn:S.
    + destruct (Parse b'); discriminate.
    + intros _. apply slice_panics in S.
      destruct b as [|x [|y t']].
      * cbn in C. discriminate.
      * f_equal. apply bval_inj.
        change (bval quote) with 34. cbn in C. cbn. lia.
      * rewrite !len_cons in S. pose proof (len_nonneg t'). lia.
  - intros ->. reflexivity.
Qed.

(** * Further properties of the code *)

(** ** The hand-off of the zone *)

Lemma DecodeRune_ascii (b : byte) (tl : list byte) :
  bval b < 128 -> DecodeRune (b :: tl) = (bval b, 1).
Proof.
  intros H. unfold DecodeRune.
  destruct (bval b <? 128) eqn:E; [reflexivity | lia].
Qed.

Lemma ParseISOZone_ascii_sign (b : byte) (tl : list byte) :
  bval b = 43 \/ bval b = 45 ->
  ParseISOZone (b :: tl)
  = if len (b :: tl) <? 3 then inl ErrZoneTooShort
    else zoneResult (bval b =? 45) (b :: tl) tl.
Proof.
  intros H. unfold ParseISOZone.
  rewrite DecodeRune_ascii by lia.
  change (drop 1 (b :: tl)) with tl.
  destruct H as [-> | ->]; reflexivity.
Qed.

Lemma capture_closed (st : Scan.state) :
  Scan.c st = 0 -> Scan.capture st = st.
Proof.
  unfold Scan.capture. intros ->. reflexivity.
Qed.

(** X1: when the scan meets [+], or [-] from the hour on, Parse closes the
    time field under the cursor and hands all that is left of the input,
    the sign included, to ParseISOZone: an error of ParseISOZone is the
    error of Parse, and its location is the zone of the fields, whose scan
    ends there.  A [+] met before the hour is an unexpected character. *)
Theorem zone_handoff (pre post : list byte) (b : byte) (st : Scan.state) :
  Scan.advance Scan.init pre (b :: post) = Some st ->
  bval b = 43 \/ (bval b = 45 /\ Scan.timeOpen st = true) ->
  (Scan.timeOpen st = false ->
   Parse (pre ++ b :: post) = inl (UnexpectedCharacterError (bval b)))
  /\ (Scan.timeOpen st = true ->
      match ParseISOZone (b :: post) with
      | inl e => Parse (pre ++ b :: post) = inl e
      | inr l =>
        Scan.fields (pre ++ b :: post)
        = inr (Scan.setloc (Scan.setc (closeTime st) 0) l)
      end).
Proof.
  intros Hadv Hb.
  assert (S : Scan.step st b post = Scan.zoneCase st b (b :: post)).
  { unfold Scan.step.
    assert (D : isDigit b = false)
      by (unfold isDigit; destruct Hb as [-> | [-> _]]; reflexivity).
    rewrite D. destruct Hb as [E | [E O]]; rewrite E; cbn [Z.eqb Pos.eqb].
    - reflexivity.
    - unfold Scan.timeOpen in O.
      destruct (Scan.p st); try discriminate; reflexivity. }
  unfold Parse, Scan.fields.
  rewrite (Scan_loop_advance _ _ _ _ Hadv). cbn [Scan.loop]. rewrite S.
  unfold Scan.zoneCase, Scan.timeOpen, closeTime,
    newUnexpectedCharacterError.
  split; intros O.
  - destruct (Scan.p st); try discriminate; reflexivity.
  - destruct (ParseISOZone (b :: post)) as [e|l];
      destruct (Scan.p st); try discriminate; reflexivity.
Qed.

Lemma zone_handoff_witness :
  Scan.fields (bytes "2017-04-24T09:41" ++ byteOf 43 :: bytes "0530")
  = inr (Scan.mk 2017 4 24 9 41 0 0 1
                 (FixedZone (bytes "+0530") 19800) 0 minute).
Proof.
  exact (proj2 (zone_handoff (bytes "2017-04-24T09:41") (bytes "0530")
                  (byteOf 43) (Scan.mk 2017 4 24 9 0 0 0 1 UTC 41 minute)
                  eq_refl (or_introl eq_refl)) eq_refl).
Defined.

(** ** The cursor *)

Lemma Scan_step_cursor (st st' : Scan.state) (b : byte) (tl : list byte) :
  Scan.step st b tl = Scan.Next st' ->
  cursorIndex (Scan.p st) <= cursorIndex (Scan.p st')
  <= cursorIndex (Scan.p st) + 1.
Proof.
  unfold Scan.step, Scan.zoneCase.
  destruct (ParseISOZone (b :: tl)); destruct (Scan.p st) eqn:P;
    destruct tl; repeat break_if; intros H; inversion H; subst;
    cbn; rewrite ?P; cbn; lia.
Qed.

(** X2: the cursor only moves forward, by one field at most for each byte
    read: after any bytes that let the loop go on it stands at the field
    where it was or at a later one, no further than the bytes read. *)
Theorem cursor_moves_forward (pre post : list byte) :
  forall st st',
    Scan.advance st pre post = Some st' ->
    cursorIndex (Scan.p st) <= cursorIndex (Scan.p st')
    <= cursorIndex (Scan.p st) + len pre.
Proof.
  induction pre as [|b tl IH]; intros st st'; cbn [Scan.advance].
  - intros H. injection H as <-. change (len []) with 0. lia.
  - destruct (Scan.step st b (tl ++ post)) as [st1|st1|e] eqn:E;
      try discriminate.
    intros H. apply IH in H. apply Scan_step_cursor in E.
    rewrite len_cons. lia.
Qed.

Lemma cursor_moves_forward_witness :
  cursorIndex year <= cursorIndex second
  <= cursorIndex year + len (bytes "2017-04-24T09:41:").
Proof.
  exact (cursor_moves_forward (bytes "2017-04-24T09:41:") (bytes "34")
           Scan.init (Scan.mk 2017 4 24 9 41 0 0 1 UTC 0 second) eq_refl).
Defined.

(** ** The errors of Parse *)

Lemma Zone_loop_unexpected (number : list byte) (ch : Z) :
  forall i st,
    Zone.loop i st number = inl (UnexpectedCharacterError ch) ->
    exists b, In b number /\ bval b = ch.
Proof.
  induction number as [|b tl IH]; intros i st; cbn [Zone.loop].
  - discriminate.
  - destruct (Zone.step i st b) as [e|st'] eqn:E.
    + intros H. injection H as ->. exists b. split; [now left|].
      revert E. unfold Zone.step, newUnexpectedCharacterError.
      repeat break_if; intros H; inversion H; reflexivity.
    + intros H. destruct (IH _ _ H) as (x & Hx & Ex).
      exists x. split; [now right | exact Ex].
Qed.

Lemma zoneResult_unexpected (neg : bool) (inp number : list byte) (ch : Z) :
  zoneResult neg inp number = inl (UnexpectedCharacterError ch) ->
  exists b, In b number /\ bval b = ch.
Proof.
  unfold zoneResult.
  destruct (Zone.loop 0 Zone.init number) as [e|st] eqn:E.
  - intros H. injection H as ->. eapply Zone_loop_unexpected; eauto.
  - unfold ErrInvalidZone. repeat break_if; discriminate.
Qed.

Lemma Scan_step_unexpected (st : Scan.state) (b : byte) (tl : list byte)
      (ch : Z) :
  Scan.step st b tl = Scan.Fail (UnexpectedCharacterError ch) ->
  exists x, In x (b :: tl) /\ bval x = ch.
Proof.
  intros H.
  assert (Z0 : forall st0,
             bval b = 43 \/ bval b = 45 ->
             Scan.zoneCase st0 b (b :: tl)
             = Scan.Fail (UnexpectedCharacterError ch) ->
             exists x, In x (b :: tl) /\ bval x = ch).
  { intros st0 Hb. unfold Scan.zoneCase, newUnexpectedCharacterError.
    rewrite (ParseISOZone_ascii_sign b tl Hb).
    destruct (len (b :: tl) <? 3).
    - destruct (Scan.p st0); intros H0; inversion H0;
        exists b; (split; [now left | reflexivity]).
    - destruct (zoneResult (bval b =? 45) (b :: tl) tl) as [e|l] eqn:R.
      + destruct (Scan.p st0); intros H0; inversion H0; subst;
          try (exists b; split; [now left | reflexivity]);
          destruct (zoneResult_unexpected _ _ _ _ R) as (x & Hx & Ex);
          exists x; (split; [now right | exact Ex]).
      + destruct (Scan.p st0); intros H0; inversion H0;
          exists b; (split; [now left | reflexivity]). }
  revert H. unfold Scan.step, newUnexpectedCharacterError.
  destruct (isDigit b); [discriminate|].
  destruct (bval b =? 45) eqn:E45.
  { destruct (cursorIndex (Scan.p st) <? cursorIndex hour).
    - destruct (Scan.p st); intros H; inversion H;
        exists b; (split; [now left | reflexivity]).
    - apply Z0. lia. }
  destruct (bval b =? 43) eqn:E43; [apply Z0; lia|].
  destruct (Scan.p st); destruct tl; repeat break_if;
    intros H; inversion H; exists b; (split; [now left | reflexivity]).
Qed.

Lemma Scan_loop_unexpected (rest : list byte) (ch : Z) :
  forall st,
    Scan.loop st rest = inl (UnexpectedCharacterError ch) ->
    exists b, In b rest /\ bval b = ch.
Proof.
  induction rest as [|b tl IH]; intros st; cbn [Scan.loop].
  - discriminate.
  - destruct (Scan.step st b tl) as [st1|st1|e] eqn:E.
    + intros H. destruct (IH _ H) as (x & Hx & Ex).
      exists x. split; [now right | exact Ex].
    + discriminate.
    + intros H. injection H as ->. eapply Scan_step_unexpected; eauto.
Qed.

(** X3: the character of an unexpected-character error of Parse is a byte
    of the input: whenever Parse fails with UnexpectedCharacterError, in its
    own scan or in the zone it hands to ParseISOZone, the character it
    reports stands somewhere in the input. *)
Theorem unexpected_character_in_input (inp : list byte) (ch : Z) :
  Parse inp = inl (UnexpectedCharacterError ch) ->
  exists b, In b inp /\ bval b = ch.
Proof.
  unfold Parse, Scan.fields.
  destruct (Scan.loop Scan.init inp) as [e|st] eqn:E.
  - intros H. injection H as ->. eapply Scan_loop_unexpected; eauto.
  - repeat break_if; try discriminate.
    destruct (validate inp (Scan.capture st)); discriminate.
Qed.

Lemma unexpected_character_in_input_witness :
  exists b, In b (bytes "2017-04-24T09:41:34-foo") /\ bval b = 102.
Proof.
  exact (unexpected_character_in_input (bytes "2017-04-24T09:41:34-foo") 102
           eq_refl).
Defined.

(** ** Inputs without a month *)

Lemma Scan_loop_year_digits (rest : list byte) :
  forall st,
    forallb isDigit rest = true -> Scan.p st = year ->
    exists c', Scan.loop st rest = inr (Scan.setc st c').
Proof.
  induction rest as [|b tl IH]; intros st Hd Hp.
  - exists (Scan.c st). destruct st. reflexivity.
  - cbn [forallb] in Hd. apply andb_prop in Hd. destruct Hd as [Hb Htl].
    cbn [Scan.loop]. unfold Scan.step. rewrite Hb, Hp. cbn [cursorIndex Z.eqb].
    destruct (IH (Scan.setc st (Int.add (Int.mul (Scan.c st) 10)
                                        (bval b - charStart))) Htl)
      as (c' & Hc); [destruct st; exact Hp|].
    exists c'. rewrite Hc. destruct st. reflexivity.
Qed.

(** X4: a year alone is never accepted.  For every input that holds digits
    only, the empty input included, Parse fails with the range error of the
    month, given 0: at the end of the input the accumulator is stored into
    the day or a later field, never into the year or the month. *)
Theorem digits_only_is_month_error (inp : list byte) :
  forallb isDigit inp = true ->
  Parse inp = inl (ErrRange (mkRangeError inp "month" 1 12 0)).
Proof.
  intros Hd.
  destruct (Scan_loop_year_digits inp Scan.init Hd eq_refl) as (c' & Hc).
  unfold Parse, Scan.fields. rewrite Hc. unfold Scan.capture.
  cbn [Scan.setc Scan.init Scan.c Scan.p].
  destruct (0 <? c'); reflexivity.
Qed.

Lemma digits_only_is_month_error_witness :
  Parse (bytes "2017")
  = inl (ErrRange (mkRangeError (bytes "2017") "month" 1 12 0)).
Proof.
  exact (digits_only_is_month_error (bytes "2017") eq_refl).
Defined.

(** ** The values that Parse accepts *)

Lemma validate_None (inp : list byte) (st : Scan.state) :
  validate inp st = None ->
  1 <= Scan.M st <= 12
  /\ 1 <= Scan.d st <= daysIn (Scan.M st) (Scan.Y st)
  /\ Scan.h st <= 23 /\ Scan.m st <= 59 /\ Scan.s st <= 59.
Proof.
  unfold validate. repeat break_if; try discriminate. intros _. lia.
Qed.

Lemma nanoseconds_range (st : Scan.state) :
  fractionBound st -> precisionOk st ->
  0 <= nanoseconds (Scan.fraction st) (Scan.nfraction st) < 1000000000.
Proof.
  unfold fractionBound, precisionOk. intros (B1 & B2) P.
  destruct (Z_le_gt_dec (Scan.nfraction st) 10) as [L|L].
  - rewrite nanoseconds_exact by lia.
    specialize (B2 ltac:(lia)).
    assert (E : 10 ^ (Scan.nfraction st - 1) * 10 ^ (10 - Scan.nfraction st)
                = 1000000000).
    { rewrite <- Z.pow_add_r by lia.
      replace (Scan.nfraction st - 1 + (10 - Scan.nfraction st)) with 9
        by lia. reflexivity. }
    pose proof (pow10_pos (10 - Scan.nfraction st) ltac:(lia)). nia.
  - rewrite nanoseconds_unscaled by lia. exact P.
Qed.

(** What the scan keeps true when no run of digits is too long: the fields
    are not negative and the accumulator is the number of the [cur] digits
    of the run being read. *)
Lemma runs_step (st : Scan.state) (b : byte) (tl : list byte) (cur : nat) :
  fieldsNonneg st -> 0 <= Scan.c st < 10 ^ Z.of_nat cur ->
  runsWithin 18 cur (b :: tl) = true ->
  match Scan.step st b tl with
  | Scan.Next st' =>
    exists cur',
      fieldsNonneg st' /\ 0 <= Scan.c st' < 10 ^ Z.of_nat cur'
      /\ runsWithin 18 cur' tl = true
  | Scan.Break st' => fieldsNonneg st' /\ Scan.c st' = 0
  | Scan.Fail _ => True
  end.
Proof.
  intros F C R. cbn [runsWithin] in R. unfold Scan.step.
  destruct (isDigit b) eqn:D.
  - apply andb_prop in R. destruct R as [R1 R2].
    apply Nat.leb_le in R1. apply isDigit_range in D.
    destruct (digit_accumulate (Scan.c st) (bval b - charStart)
                (Z.of_nat cur) ltac:(lia) C ltac:(unfold charStart; lia))
      as [E B].
    exists (S cur). rewrite Nat2Z.inj_succ, <- Z.add_1_r.
    destruct st as [Y M d h m s f nf l c p].
    unfold fieldsNonneg in *. cbn -[Z.pow Int.add Int.mul] in *.
    rewrite E. destruct p; cbn -[Z.pow]; repeat split; try lia; exact R2.
  - unfold Scan.zoneCase.
    destruct st as [Y M d h m s f nf l c p].
    unfold fieldsNonneg in *. cbn -[Z.pow ParseISOZone] in *.
    destruct (ParseISOZone (b :: tl)); destruct p; destruct tl;
      repeat break_if; try exact I; cbn -[Z.pow];
      try (exists O; change (10 ^ Z.of_nat 0) with 1);
      repeat split; try lia; try exact R; reflexivity.
Qed.

Lemma runs_loop (rest : list byte) :
  forall st st' cur,
    fieldsNonneg st -> 0 <= Scan.c st < 10 ^ Z.of_nat cur ->
    runsWithin 18 cur rest = true ->
    Scan.loop st rest = inr st' ->
    fieldsNonneg st' /\ 0 <= Scan.c st'.
Proof.
  induction rest as [|b tl IH]; intros st st' cur F C R; cbn [Scan.loop].
  - intros H. injection H as <-. split; [exact F | lia].
  - pose proof (runs_step st b tl cur F C R) as S.
    destruct (Scan.step st b tl) as [st1|st1|e]; try discriminate.
    + destruct S as (cur' & F1 & C1 & R1). eapply IH; eauto.
    + intros H. injection H as <-. destruct S as [F1 C1].
      split; [exact F1 | lia].
Qed.

Lemma fieldsNonneg_capture (st : Scan.state) :
  fieldsNonneg st -> 0 <= Scan.c st -> fieldsNonneg (Scan.capture st).
Proof.
  unfold fieldsNonneg, Scan.capture. intros F C.
  destruct (0 <? Scan.c st); destruct (Scan.p st); cbn; lia.
Qed.

(** Once the cursor has left the year, the year is not written again. *)
Lemma year_step_later (st : Scan.state) (b : byte) (tl : list byte) :
  Scan.p st <> year ->
  match Scan.step st b tl with
  | Scan.Next st' | Scan.Break st' =>
    Scan.p st' <> year /\ Scan.Y st' = Scan.Y st
  | Scan.Fail _ => True
  end.
Proof.
  intros P. unfold Scan.step, Scan.zoneCase.
  destruct st as [Y M d h m s f nf l c p].
  cbn [Scan.p Scan.Y] in *.
  destruct (ParseISOZone (b :: tl)); destruct p; destruct tl;
    repeat break_if; try exact I; try congruence;
    cbn; split; try discriminate; reflexivity.
Qed.

Lemma year_loop_later (rest : list byte) :
  forall st st',
    Scan.p st <> year -> Scan.loop st rest = inr st' ->
    Scan.Y st' = Scan.Y st.
Proof.
  induction rest as [|b tl IH]; intros st st' P; cbn [Scan.loop].
  - intros H. injection H as <-. reflexivity.
  - pose proof (year_step_later st b tl P) as S.
    destruct (Scan.step st b tl) as [st1|st1|e]; try discriminate.
    + destruct S as [P1 Y1]. intros H. rewrite (IH _ _ P1 H). exact Y1.
    + destruct S as [P1 Y1]. intros H. injection H as <-. exact Y1.
Qed.

(** The year is the number written by the digits that the input starts
    with: with four of them or fewer it is at most 9999. *)
Lemma year_loop (rest : list byte) :
  forall st st' cur,
    Scan.p st = year -> Scan.Y st = 0 ->
    0 <= Scan.c st < 10 ^ Z.of_nat cur ->
    (cur + leadingDigits rest <= 4)%nat ->
    Scan.loop st rest = inr st' ->
    Scan.Y st' <= 9999.
Proof.
  induction rest as [|b tl IH]; intros st st' cur P Y0 C R;
    cbn [Scan.loop leadingDigits] in *.
  - intros H. injection H as <-. lia.
  - destruct st as [Y M d h m s f nf l c p].
    cbn [Scan.p Scan.Y Scan.c] in *. subst p Y.
    unfold Scan.step, Scan.zoneCase.
    destruct (isDigit b) eqn:D.
    + apply isDigit_range in D.
      destruct (digit_accumulate c (bval b - charStart) (Z.of_nat cur)
                  ltac:(lia) C ltac:(unfold charStart; lia)) as [E B].
      cbn -[Z.pow Int.add Int.mul]. rewrite E.
      apply (IH _ st' (S cur)); cbn [Scan.p Scan.Y Scan.c Scan.setc];
        try reflexivity; [|lia].
      rewrite Nat2Z.inj_succ, <- Z.add_1_r. exact B.
    + pose proof (pow10_le (Z.of_nat cur) 4 ltac:(lia)) as L.
      change (10 ^ 4) with 10000 in L.
      cbn -[Z.pow ParseISOZone].
      repeat break_if; try discriminate.
      intros H. apply year_loop_later in H; [|cbn; discriminate].
      cbn in H. lia.
Qed.

(** X5: for every input that Parse accepts, in which no run of digits is
    longer than 18 and the year is written with at most four digits, all
    that Parse hands to [time.Date] is within the usual ranges: the year in
    [0, 9999], the month in [1, 12], the day in [1, daysIn month year], the
    hour in [0, 23], the minute and the second in [0, 59] and the
    nanoseconds in [0, 1e9).  The hour, the minute and the second are
    checked from above only, so that the bound on the runs is needed: the
    hour written 18446744073709551615 wraps around to -1 and passes the
    checks. *)
Theorem accepted_fields_in_range :
  (forall inp t,
      Parse inp = inr t ->
      runsWithin 18 0 inp = true ->
      (leadingDigits inp <= 4)%nat ->
      validTime t)
  /\ (exists st,
         Scan.fields (bytes "2017-04-24T18446744073709551615:00") = inr st
         /\ Scan.h st = -1
         /\ validate (bytes "2017-04-24T18446744073709551615:00") st
            = None).
Proof.
  split;
    [|eexists; split; [vm_compute; reflexivity|];
      split; vm_compute; reflexivity].
  intros inp t H R Y4. unfold Parse in H.
  destruct (Scan.fields inp) as [e|st] eqn:F; [discriminate|].
  destruct ((Scan.fraction st <? 0) || (1000000000 <=? Scan.fraction st))
           eqn:P; [discriminate|].
  destruct (validate inp st) as [e|] eqn:V; [discriminate|].
  injection H as <-. unfold validTime.
  cbn [Year Month Day Hour Minute Second Nanosecond].
  apply validate_None in V.
  pose proof (nanoseconds_range st (fractionBound_fields inp st F)
                ltac:(unfold precisionOk; lia)) as N.
  unfold Scan.fields in F.
  destruct (Scan.loop Scan.init inp) as [e|st0] eqn:L; [discriminate|].
  injection F as <-.
  assert (F0 : fieldsNonneg Scan.init)
    by (unfold fieldsNonneg; cbn; lia).
  destruct (runs_loop inp Scan.init st0 O F0
              ltac:(cbn; lia) R L) as [F1 C1].
  pose proof (fieldsNonneg_capture st0 F1 C1) as F2.
  pose proof (year_loop inp Scan.init st0 O eq_refl eq_refl
                ltac:(cbn; lia) Y4 L) as Y9.
  assert (YC : Scan.Y (Scan.capture st0) = Scan.Y st0).
  { unfold Scan.capture.
    destruct (0 <? Scan.c st0); destruct (Scan.p st0); reflexivity. }
  unfold fieldsNonneg in F2. rewrite YC in *. lia.
Qed.

Lemma accepted_fields_in_range_witness :
  validTime (Date 2017 4 24 9 41 34 502000000 UTC).
Proof.
  exact (proj1 accepted_fields_in_range (bytes "2017-04-24T09:41:34.502Z")
           (Date 2017 4 24 9 41 34 502000000 UTC) eq_refl eq_refl
           ltac:(vm_compute; lia)).
Defined.

(** ** The results of ParseISOZone *)

Lemma zoneResult_bounded (neg : bool) (inp number : list byte)
      (l : Location) :
  zoneResult neg inp number = inr l ->
  exists offset,
    l = FixedZone inp offset
    /\ if neg then - 362439 <= offset < 0 else 0 <= offset <= 362439.
Proof.
  intros H. destruct (zoneResult_accepts _ _ _ _ H) as (h & m & s & G).
  pose proof (Zone_loop_groups number) as L. rewrite G in L.
  destruct L as ((Hh & Hm & Hs) & _).
  rewrite (zoneResult_groups neg inp number h m s G) in H.
  unfold offsetOf in H. destruct neg; cbn [andb] in H.
  - destruct (h * 3600 + m * 60 + s =? 0) eqn:E; [discriminate|].
    injection H as <-. eexists. split; [reflexivity|]. lia.
  - injection H as <-. eexists. split; [reflexivity|]. lia.
Qed.

(** X6: what ParseISOZone returns.  A leading [Z] gives UTC whatever follows
    it.  Every other success is a fixed zone named by the whole input, of
    an offset from 0 to 362439 seconds (99:99:99) after [+] and from
    -362439 to -1 after [-] or the minus sign.  An ASCII first byte that is
    none of [Z], [+], [-] is returned as the unexpected character. *)
Theorem zone_results :
  (forall rest, ParseISOZone (byteOf 90 :: rest) = inr UTC)
  /\ (forall inp l,
      ParseISOZone inp = inr l ->
      (l = UTC /\ firstRune inp = 90)
      \/ exists offset,
          l = FixedZone inp offset
          /\ ((firstRune inp = 43 /\ 0 <= offset <= 362439)
              \/ ((firstRune inp = 45 \/ firstRune inp = 8722)
                  /\ - 362439 <= offset < 0)))
  /\ (forall b tl,
      bval b < 128 -> bval b <> 90 -> bval b <> 43 -> bval b <> 45 ->
      ParseISOZone (b :: tl) = inl (UnexpectedCharacterError (bval b))).
Proof.
  split; [|split].
  - intros rest. reflexivity.
  - intros inp l. unfold ParseISOZone, firstRune.
    destruct (DecodeRune inp) as [r i]. cbn [fst].
    destruct (r =? 90) eqn:E90.
    { intros H. injection H as <-. left. split; [reflexivity | lia]. }
    destruct (r =? 43) eqn:E43.
    { destruct (len inp <? 3); [discriminate|]. intros H.
      destruct (zoneResult_bounded _ _ _ _ H) as (o & -> & B).
      right. exists o. split; [reflexivity|]. left. lia. }
    destruct ((r =? 45) || (r =? 8722)) eqn:E45.
    { destruct (len inp <? 3); [discriminate|]. intros H.
      destruct (zoneResult_bounded _ _ _ _ H) as (o & -> & B).
      right. exists o. split; [reflexivity|]. right. lia. }
    destruct (r =? RuneError); discriminate.
  - intros b tl H1 H2 H3 H4. unfold ParseISOZone.
    rewrite DecodeRune_ascii by exact H1.
    destruct (bval b =? 90) eqn:E1; [lia|].
    destruct (bval b =? 43) eqn:E2; [lia|].
    destruct ((bval b =? 45) || (bval b =? 8722)) eqn:E3; [lia|].
    destruct (bval b =? RuneError) eqn:E4; [unfold RuneError in E4; lia|].
    reflexivity.
Qed.

Lemma zone_results_witness :
  (FixedZone (bytes "-99:99:99") (-362439) = UTC
   /\ firstRune (bytes "-99:99:99") = 90)
  \/ exists offset,
      FixedZone (bytes "-99:99:99") (-362439)
      = FixedZone (bytes "-99:99:99") offset
      /\ ((firstRune (bytes "-99:99:99") = 43 /\ 0 <= offset <= 362439)
          \/ ((firstRune (bytes "-99:99:99") = 45
               \/ firstRune (bytes "-99:99:99") = 8722)
              /\ - 362439 <= offset < 0)).
Proof.
  exact (proj1 (proj2 zone_results) (bytes "-99:99:99")
           (FixedZone (bytes "-99:99:99") (-362439)) eq_refl).
Defined.

(** ** Inputs that stop before the zone *)

Lemma Scan_loop_date (Y M D : Z) (rest : list byte) :
  0 <= Y <= 9999 -> 0 <= M <= 99 -> 0 <= D <= 99 ->
  Scan.loop Scan.init (dateText Y M D ++ rest)
  = Scan.loop (Scan.mk Y M 0 0 0 0 0 1 UTC D day) rest.
Proof.
  intros HY HM HD. unfold dateText, twoDigits.
  repeat (rewrite <- app_assoc || rewrite <- app_comm_cons).
  change Scan.init with (Scan.mk 0 0 0 0 0 0 0 1 UTC 0 year).
  rewrite Scan_loop_field, loop_hyphen_year
    by (try lia; change (10 ^ Z.of_nat 4) with 10000; lia).
  rewrite Scan_loop_field, loop_hyphen_month
    by (try lia; change (10 ^ Z.of_nat 2) with 100; lia).
  rewrite Scan_loop_field
    by (try lia; change (10 ^ Z.of_nat 2) with 100; lia).
  reflexivity.
Qed.

Lemma Scan_loop_two (v : Z) (Y M d h m s f nf : Z) (l : Location)
      (p : Cursor) (rest : list byte) :
  0 <= v <= 99 -> p <> millisecond ->
  Scan.loop (Scan.mk Y M d h m s f nf l 0 p) (twoDigits v ++ rest)
  = Scan.loop (Scan.mk Y M d h m s f nf l v p) rest.
Proof.
  intros Hv Hp. unfold twoDigits.
  rewrite Scan_loop_field
    by (try lia; change (10 ^ Z.of_nat 2) with 100; lia).
  destruct p; try reflexivity. congruence.
Qed.

(** Parse once the scan has ended with no fraction read. *)
Lemma Parse_no_fraction (inp : list byte) (Y M d h m s c : Z)
      (l : Location) (p : Cursor) :
  Scan.fields inp = inr (Scan.mk Y M d h m s 0 1 l c p) ->
  1 <= M <= 12 -> 1 <= d <= daysIn M Y ->
  h <= 23 -> m <= 59 -> s <= 59 ->
  Parse inp = inr (Date Y M d h m s 0 l).
Proof.
  intros F HM Hd Hh Hm Hs.
  rewrite (Parse_validate _ _ F) by (unfold precisionOk; cbn; lia).
  rewrite validate_in_range by (cbn; lia). reflexivity.
Qed.

(** X7: an input may stop before the zone, and before any later field.  For
    every date within bounds and time of day within bounds, Parse accepts
    the text of the date alone, of the date and [T], and of the date with
    the hour, with the hour and the minute, or with the hour, the minute
    and the second; the fields that are not written are 0 and the zone is
    UTC. *)
Theorem stops_before_zone (Y M D h m s : Z) :
  0 <= Y <= 9999 -> 1 <= M <= 12 -> 1 <= D <= daysIn M Y ->
  0 <= h <= 23 -> 0 <= m <= 59 -> 0 <= s <= 59 ->
  Parse (dateText Y M D) = inr (Date Y M D 0 0 0 0 UTC)
  /\ Parse (dateText Y M D ++ [byteOf 84]) = inr (Date Y M D 0 0 0 0 UTC)
  /\ Parse (dateText Y M D ++ byteOf 84 :: twoDigits h)
     = inr (Date Y M D h 0 0 0 UTC)
  /\ Parse (dateText Y M D ++ byteOf 84 :: twoDigits h
              ++ byteOf 58 :: twoDigits m)
     = inr (Date Y M D h m 0 0 UTC)
  /\ Parse (dateText Y M D ++ byteOf 84 :: twoDigits h
              ++ byteOf 58 :: twoDigits m ++ byteOf 58 :: twoDigits s)
     = inr (Date Y M D h m s 0 UTC).
Proof.
  intros HY HM HD Hh Hm Hs. pose proof (daysIn_max M Y) as Hmax.
  assert (Dt : forall rest,
             Scan.loop Scan.init (dateText Y M D ++ rest)
             = Scan.loop (Scan.mk Y M 0 0 0 0 0 1 UTC D day) rest)
    by (intros rest; apply Scan_loop_date; lia).
  repeat split.
  - apply (Parse_no_fraction _ Y M D 0 0 0 D UTC day); try lia.
    unfold Scan.fields. rewrite <- (app_nil_r (dateText Y M D)), Dt.
    cbn [Scan.loop]. unfold Scan.capture. cbn [Scan.c Scan.p].
    destruct (0 <? D) eqn:E; [reflexivity | lia].
  - apply (Parse_no_fraction _ Y M D 0 0 0 0 UTC hour); try lia.
    unfold Scan.fields. rewrite Dt, loop_T_day. reflexivity.
  - apply (Parse_no_fraction _ Y M D h 0 0 h UTC hour); try lia.
    unfold Scan.fields. rewrite Dt, loop_T_day.
    rewrite <- (app_nil_r (twoDigits h)), Scan_loop_two
      by (try lia; discriminate).
    cbn [Scan.loop]. unfold Scan.capture. cbn [Scan.c Scan.p].
    destruct (0 <? h) eqn:E; [reflexivity|].
    assert (h = 0) by lia. subst h. reflexivity.
  - apply (Parse_no_fraction _ Y M D h m 0 m UTC minute); try lia.
    unfold Scan.fields. rewrite Dt, loop_T_day.
    rewrite Scan_loop_two, loop_colon_hour by (try lia; discriminate).
    rewrite <- (app_nil_r (twoDigits m)), Scan_loop_two
      by (try lia; discriminate).
    cbn [Scan.loop]. unfold Scan.capture. cbn [Scan.c Scan.p].
    destruct (0 <? m) eqn:E; [reflexivity|].
    assert (m = 0) by lia. subst m. reflexivity.
  - apply (Parse_no_fraction _ Y M D h m s s UTC second); try lia.
    unfold Scan.fields. rewrite Dt, loop_T_day.
    rewrite Scan_loop_two, loop_colon_hour by (try lia; discriminate).
    rewrite Scan_loop_two, loop_colon_minute by (try lia; discriminate).
    rewrite <- (app_nil_r (twoDigits s)), Scan_loop_two
      by (try lia; discriminate).
    cbn [Scan.loop]. unfold Scan.capture. cbn [Scan.c Scan.p].
    destruct (0 <? s) eqn:E; [reflexivity|].
    assert (s = 0) by lia. subst s. reflexivity.
Qed.

Lemma stops_before_zone_witness :
  Parse (bytes "2017-04-24") = inr (Date 2017 4 24 0 0 0 0 UTC)
  /\ Parse (bytes "2017-04-24T09:41")
     = inr (Date 2017 4 24 9 41 0 0 UTC).
Proof.
  destruct (stops_before_zone 2017 4 24 9 41 34
              ltac:(lia) ltac:(lia) ltac:(vm_compute; split; discriminate)
              ltac:(lia) ltac:(lia) ltac:(lia))
    as (H1 & _ & _ & H4 & _).
  split; [exact H1 | exact H4].
Defined.

(** ** The codec at every precision *)

Lemma firstn_digitsOf (j : nat) :
  forall n v,
    0 <= v ->
    firstn n (digitsOf (n + j) v) = digitsOf n (v / 10 ^ Z.of_nat j).
Proof.
  induction j as [|j IH]; intros n v Hv.
  - rewrite Nat.add_0_r. change (10 ^ Z.of_nat 0) with 1.
    rewrite Z.div_1_r. apply firstn_all2. rewrite digitsOf_length. lia.
  - replace (n + S j)%nat with (S (n + j)) by lia. cbn [digitsOf].
    rewrite firstn_app, digitsOf_length.
    replace (n - (n + j))%nat with O by lia. cbn [firstn].
    rewrite app_nil_r, IH by (apply Z.div_pos; lia).
    rewrite Z.div_div by (try lia; apply pow10_pos; lia).
    rewrite Nat2Z.inj_succ, <- Z.add_1_r, pow10_succ by lia.
    reflexivity.
Qed.

Lemma trimZeros_zero (n : nat) :
  trimZeros (map digitByte (digitsOf n 0)) = [].
Proof.
  induction n as [|n IH]; [reflexivity|].
  cbn [digitsOf]. change (0 / 10) with 0. change (0 mod 10) with 0.
  rewrite map_app. cbn [map]. rewrite trimZeros_snoc, IH. reflexivity.
Qed.

Lemma quotient_range (n : nat) (ns : Z) :
  (n <= 9)%nat -> 0 <= ns < 1000000000 ->
  0 <= ns / 10 ^ (9 - Z.of_nat n) < 10 ^ Z.of_nat n.
Proof.
  intros Hn Hns.
  pose proof (pow10_pos (9 - Z.of_nat n) ltac:(lia)) as Hp.
  split; [apply Z.div_pos; lia|].
  apply Z.div_lt_upper_bound; [lia|].
  rewrite <- Z.pow_add_r by lia.
  replace (9 - Z.of_nat n + Z.of_nat n) with 9 by lia.
  change (10 ^ 9) with 1000000000. lia.
Qed.

(** The fraction that a layout of [n] nines writes is that of the first
    [n] digits of the nanoseconds. *)
Lemma appendNano_quotient (n : nat) (ns : Z) :
  (1 <= n <= 9)%nat -> 0 <= ns < 1000000000 ->
  appendNano ns n
  = match trimZeros (map digitByte
                         (digitsOf n (ns / 10 ^ (9 - Z.of_nat n)))) with
    | [] => []
    | ds => byteOf 46 :: ds
    end.
Proof.
  intros Hn Hns. unfold appendNano.
  destruct n as [|n']; [lia|]. set (n := S n') in *.
  destruct (ns =? 0) eqn:E.
  - apply Z.eqb_eq in E. subst ns. rewrite Z.div_0_l
      by (pose proof (pow10_pos (9 - Z.of_nat n) ltac:(lia)); lia).
    rewrite trimZeros_zero. reflexivity.
  - rewrite appendInt_digits
      by (try lia; change (10 ^ Z.of_nat 9) with 1000000000; lia).
    rewrite firstn_map.
    replace 9%nat with (n + (9 - n))%nat at 1 by lia.
    rewrite firstn_digitsOf by lia.
    replace (Z.of_nat (9 - n)) with (9 - Z.of_nat n) by lia.
    reflexivity.
Qed.

Lemma appendNano_cases (n : nat) (ns : Z) :
  (n <= 9)%nat -> 0 <= ns < 1000000000 ->
  (ns / 10 ^ (9 - Z.of_nat n) = 0 /\ appendNano ns n = [])
  \/ exists k c,
      (1 <= k <= n)%nat
      /\ 0 <= c < 10 ^ Z.of_nat k
      /\ ns / 10 ^ (9 - Z.of_nat n) = c * 10 ^ (Z.of_nat n - Z.of_nat k)
      /\ appendNano ns n = byteOf 46 :: map digitByte (digitsOf k c).
Proof.
  intros Hn Hns.
  destruct n as [|n'].
  - left. split; [|reflexivity]. change (9 - Z.of_nat 0) with 9.
    apply Z.div_small. change (10 ^ 9) with 1000000000. lia.
  - set (n := S n') in *.
    rewrite appendNano_quotient by (subst n; lia).
    pose proof (quotient_range n ns Hn Hns) as Hq.
    set (q := ns / 10 ^ (9 - Z.of_nat n)) in *.
    destruct (Z.eq_dec q 0) as [E|E].
    + left. split; [exact E|]. rewrite E, trimZeros_zero. reflexivity.
    + right.
      destruct (trimZeros_digits n q Hq E) as (k & c & Hk & Hc & Hv & Ht).
      exists k, c. repeat split; try lia; try exact Hv.
      rewrite Ht.
      destruct (map digitByte (digitsOf k c)) as [|x t] eqn:Em;
        [|reflexivity].
      apply (f_equal (@List.length byte)) in Em.
      rewrite length_map, digitsOf_length in Em. cbn in Em. lia.
Qed.

Lemma truncated_scaled (n k : nat) (ns c : Z) :
  (k <= n <= 9)%nat ->
  ns / 10 ^ (9 - Z.of_nat n) = c * 10 ^ (Z.of_nat n - Z.of_nat k) ->
  c * 10 ^ (9 - Z.of_nat k) = truncated n ns.
Proof.
  intros Hk Hq. unfold truncated. rewrite Hq, <- Z.mul_assoc.
  rewrite <- Z.pow_add_r by lia.
  replace (Z.of_nat n - Z.of_nat k + (9 - Z.of_nat n))
    with (9 - Z.of_nat k) by lia.
  reflexivity.
Qed.

(** The scan of what a layout writes after the seconds. *)
Lemma Scan_loop_tail_layout (n : nat) (Y M D h m s ns offset : Z) :
  (n <= 9)%nat -> 0 <= ns < 1000000000 -> minuteZone offset ->
  exists c nf l p,
    Scan.loop (Scan.mk Y M D h m 0 0 1 UTC s second)
              (appendNano ns n ++ appendZone offset)
    = inr (Scan.mk Y M D h m s c nf l 0 p)
    /\ 1 <= nf <= 10
    /\ 0 <= c < 1000000000
    /\ c * 10 ^ (10 - nf) = truncated n ns
    /\ zoneOffset l = offset.
Proof.
  intros Hn Hns Hz.
  destruct (appendNano_cases n ns Hn Hns)
    as [[Hq ->] | (k & c & Hk & Hc & Hq & ->)].
  - assert (T : truncated n ns = 0) by (unfold truncated; rewrite Hq; lia).
    cbn [app].
    destruct (Z.eq_dec offset 0) as [-> | Hoff].
    + change (appendZone 0) with [byteOf 90]. rewrite loop_Z_second.
      exists 0, 1, UTC, second. repeat split; try reflexivity; lia.
    + destruct (appendZone_parse offset Hoff Hz)
        as (sg & rest & l & -> & Hsg & Hp & Hl).
      rewrite (loop_zone_second _ _ _ _ _ _ _ _ _ _ _ sg l Hsg Hp).
      exists 0, 1, l, second. repeat split; try reflexivity; lia.
  - pose proof (truncated_scaled n k ns c ltac:(lia) Hq) as T.
    cbn [app]. rewrite loop_dot_second, Scan_loop_field by (lia || exact Hc).
    assert (H9 : 10 ^ Z.of_nat k <= 10 ^ 9) by (apply pow10_le; lia).
    change (10 ^ 9) with 1000000000 in H9.
    destruct (Z.eq_dec offset 0) as [-> | Hoff].
    + change (appendZone 0) with [byteOf 90]. rewrite loop_Z_fraction.
      exists c, (1 + Z.of_nat k), UTC, millisecond.
      replace (10 - (1 + Z.of_nat k)) with (9 - Z.of_nat k) by lia.
      repeat split; try reflexivity; lia.
    + destruct (appendZone_parse offset Hoff Hz)
        as (sg & rest & l & -> & Hsg & Hp & Hl).
      rewrite (loop_zone_fraction _ _ _ _ _ _ _ _ _ _ _ sg l Hsg Hp).
      exists c, (1 + Z.of_nat k), l, millisecond.
      replace (10 - (1 + Z.of_nat k)) with (9 - Z.of_nat k) by lia.
      repeat split; try reflexivity; lia.
Qed.

Lemma fractionDigits_max (layout : Layout) :
  (fractionDigits layout <= 9)%nat.
Proof. destruct layout; cbn; lia. Qed.

(** Parse of the text of an instant, at any layout. *)
Lemma Parse_AppendFormat (x : Time) (layout : Layout) :
  validTime x -> minuteZone (zoneOffset (Loc x)) ->
  exists l,
    Parse (AppendFormat x layout)
    = inr (Date (Year x) (Month x) (Day x) (Hour x) (Minute x) (Second x)
                (truncated (fractionDigits layout) (Nanosecond x)) l)
    /\ zoneOffset l = zoneOffset (Loc x).
Proof.
  destruct x as [Y M D h m s ns l].
  unfold validTime. cbn [Year Month Day Hour Minute Second Nanosecond Loc].
  intros (HY & HM & HD & Hh & Hm & Hs & Hns) Hz.
  pose proof (daysIn_max M Y) as Hmax.
  destruct (Scan_loop_tail_layout (fractionDigits layout) Y M D h m s ns
              (zoneOffset l) (fractionDigits_max layout) Hns Hz)
    as (c & nf & l' & p & Hloop & Hnf & Hc & Hscale & Hl).
  exists l'. split; [|exact Hl].
  assert (F : Scan.fields (AppendFormat (Date Y M D h m s ns l) layout)
              = inr (Scan.mk Y M D h m s c nf l' 0 p)).
  { unfold Scan.fields, AppendFormat.
    cbn [Year Month Day Hour Minute Second Nanosecond Loc].
    rewrite (appendInt_digits 4 Y), (appendInt_digits 2 M),
      (appendInt_digits 2 D), (appendInt_digits 2 h),
      (appendInt_digits 2 m), (appendInt_digits 2 s)
      by (try lia; try change (10 ^ Z.of_nat 2) with 100;
          try change (10 ^ Z.of_nat 4) with 10000; lia).
    change Scan.init with (Scan.mk 0 0 0 0 0 0 0 1 UTC 0 year).
    rewrite Scan_loop_field, loop_hyphen_year
      by (try lia; change (10 ^ Z.of_nat 4) with 10000; lia).
    rewrite Scan_loop_field, loop_hyphen_month
      by (try lia; change (10 ^ Z.of_nat 2) with 100; lia).
    rewrite Scan_loop_field, loop_T_day
      by (try lia; change (10 ^ Z.of_nat 2) with 100; lia).
    rewrite Scan_loop_field, loop_colon_hour
      by (try lia; change (10 ^ Z.of_nat 2) with 100; lia).
    rewrite Scan_loop_field, loop_colon_minute
      by (try lia; change (10 ^ Z.of_nat 2) with 100; lia).
    rewrite Scan_loop_field
      by (try lia; change (10 ^ Z.of_nat 2) with 100; lia).
    rewrite Hloop. reflexivity. }
  rewrite (Parse_validate _ _ F) by (unfold precisionOk; cbn; lia).
  rewrite validate_in_range by (cbn; lia).
  cbn [Scan.Y Scan.M Scan.d Scan.h Scan.m Scan.s Scan.fraction
       Scan.nfraction Scan.loc].
  rewrite nanoseconds_exact by lia. rewrite Hscale. reflexivity.
Qed.

Lemma truncated_range (n : nat) (ns : Z) :
  (n <= 9)%nat -> 0 <= ns ->
  0 <= truncated n ns <= ns /\ ns - truncated n ns < 10 ^ (9 - Z.of_nat n).
Proof.
  intros Hn Hns. unfold truncated.
  pose proof (pow10_pos (9 - Z.of_nat n) ltac:(lia)) as Hp.
  pose proof (Z.div_mod ns (10 ^ (9 - Z.of_nat n)) ltac:(lia)) as Hdm.
  pose proof (Z.mod_pos_bound ns (10 ^ (9 - Z.of_nat n)) Hp) as Hmb.
  pose proof (Z.div_pos ns (10 ^ (9 - Z.of_nat n)) Hns Hp) as Hq.
  nia.
Qed.

Lemma appendNano_truncated (n : nat) (ns : Z) :
  (n <= 9)%nat -> 0 <= ns < 1000000000 ->
  appendNano (truncated n ns) n = appendNano ns n.
Proof.
  intros Hn Hns. destruct n as [|n']; [reflexivity|].
  set (n := S n') in *.
  pose proof (truncated_range n ns Hn ltac:(lia)) as [Ht _].
  rewrite !appendNano_quotient by (subst n; lia).
  unfold truncated at 1. rewrite Z.div_mul
    by (pose proof (pow10_pos (9 - Z.of_nat n) ltac:(lia)); lia).
  reflexivity.
Qed.

(** X8: decoding what was encoded, at every precision.  For every instant
    whose calendar fields are within bounds and whose zone offset is a
    whole number of minutes below 100 hours, and for each of the four
    layouts, MarshalText succeeds and Parse of its text gives back the
    year, month, day, hour, minute, second and zone offset, and the
    nanoseconds cut down to the digits that the layout writes: none, three,
    six or all nine. *)
Theorem round_trip_truncates (x : Time) (layout : Layout) :
  validTime x -> minuteZone (zoneOffset (Loc x)) ->
  exists b y,
    MarshalText x layout = inr b
    /\ Parse b = inr y
    /\ Year y = Year x /\ Month y = Month x /\ Day y = Day x
    /\ Hour y = Hour x /\ Minute y = Minute x /\ Second y = Second x
    /\ zoneOffset (Loc y) = zoneOffset (Loc x)
    /\ Nanosecond y = truncated (fractionDigits layout) (Nanosecond x)
    /\ 0 <= Nanosecond x - Nanosecond y
       < 10 ^ (9 - Z.of_nat (fractionDigits layout)).
Proof.
  intros V Hz.
  destruct (Parse_AppendFormat x layout V Hz) as (l & HP & Hl).
  destruct V as (HY & _ & _ & _ & _ & _ & Hns).
  pose proof (truncated_range (fractionDigits layout) (Nanosecond x)
                (fractionDigits_max layout) ltac:(lia)) as [T1 T2].
  unfold MarshalText.
  destruct ((Year x <? 0) || (10000 <=? Year x)) eqn:EY; [lia|].
  eexists _, _. split; [reflexivity|]. split; [exact HP|].
  cbn [Year Month Day Hour Minute Second Nanosecond Loc].
  repeat split; try reflexivity; lia.
Qed.

Lemma round_trip_truncates_witness :
  exists b y,
    MarshalText (Date 2017 4 26 11 13 4 123456789 UTC) RFC3339Milli = inr b
    /\ Parse b = inr y
    /\ Year y = 2017 /\ Month y = 4 /\ Day y = 26
    /\ Hour y = 11 /\ Minute y = 13 /\ Second y = 4
    /\ zoneOffset (Loc y) = 0
    /\ Nanosecond y = truncated 3 123456789
    /\ 0 <= 123456789 - Nanosecond y < 10 ^ (9 - Z.of_nat 3).
Proof.
  apply (round_trip_truncates (Date 2017 4 26 11 13 4 123456789 UTC)
           RFC3339Milli).
  - unfold validTime. cbn. lia.
  - unfold minuteZone. cbn. lia.
Defined.

Lemma AppendFormat_same_fields (x y : Time) (layout : Layout) :
  Year y = Year x -> Month y = Month x -> Day y = Day x ->
  Hour y = Hour x -> Minute y = Minute x -> Second y = Second x ->
  zoneOffset (Loc y) = zoneOffset (Loc x) ->
  appendNano (Nanosecond y) (fractionDigits layout)
  = appendNano (Nanosecond x) (fractionDigits layout) ->
  AppendFormat y layout = AppendFormat x layout.
Proof.
  intros EY EM ED Eh Em Es Ez En. unfold AppendFormat.
  rewrite EY, EM, ED, Eh, Em, Es, Ez, En. reflexivity.
Qed.

(** X9: encoding again what was decoded changes nothing.  For every such
    instant and every layout, the value that Parse returns for the text of
    MarshalText is encoded by MarshalText to the same text, although at a
    reduced precision it is not the instant that was encoded. *)
Theorem reencoding_is_stable (x : Time) (layout : Layout) :
  validTime x -> minuteZone (zoneOffset (Loc x)) ->
  exists b y,
    MarshalText x layout = inr b
    /\ Parse b = inr y
    /\ MarshalText y layout = inr b.
Proof.
  intros V Hz.
  destruct (Parse_AppendFormat x layout V Hz) as (l & HP & Hl).
  destruct V as (HY & _ & _ & _ & _ & _ & Hns).
  unfold MarshalText.
  destruct ((Year x <? 0) || (10000 <=? Year x)) eqn:EY; [lia|].
  eexists _, _. split; [reflexivity|]. split; [exact HP|].
  cbn [Year]. rewrite EY. f_equal.
  apply AppendFormat_same_fields; try reflexivity; [exact Hl|].
  cbn [Nanosecond]. apply appendNano_truncated.
  - apply fractionDigits_max.
  - exact Hns.
Qed.

Lemma reencoding_is_stable_witness :
  exists b y,
    MarshalText (Date 2017 4 26 11 13 4 123456789 UTC) RFC3339Micro = inr b
    /\ Parse b = inr y
    /\ MarshalText y RFC3339Micro = inr b.
Proof.
  apply (reencoding_is_stable (Date 2017 4 26 11 13 4 123456789 UTC)
           RFC3339Micro).
  - unfold validTime. cbn. lia.
  - unfold minuteZone. cbn. lia.
Defined.

(** ** The length of the text *)

Lemma appendNano_length (n : nat) (ns : Z) :
  (n <= 9)%nat -> 0 <= ns < 1000000000 ->
  len (appendNano ns n) <= match n with O => 0 | _ => 1 + Z.of_nat n end.
Proof.
  intros Hn Hns.
  destruct (appendNano_cases n ns Hn Hns)
    as [[_ ->] | (k & c & Hk & _ & _ & ->)].
  - change (len []) with 0. destruct n; lia.
  - rewrite len_cons. unfold len. rewrite length_map, digitsOf_length.
    destruct n; lia.
Qed.

Lemma appendInt_length (n : nat) (v : Z) :
  (1 <= n <= 20)%nat -> 0 <= v < 10 ^ Z.of_nat n ->
  len (appendInt v n) = Z.of_nat n.
Proof.
  intros Hn Hv. rewrite appendInt_digits by assumption.
  unfold len. rewrite length_map, digitsOf_length. reflexivity.
Qed.

Lemma appendZone_length (offset : Z) :
  minuteZone offset ->
  len (appendZone offset) = if offset =? 0 then 1 else 6.
Proof.
  intros [Hrem Hrange]. unfold appendZone.
  destruct (offset =? 0) eqn:E0; [reflexivity|].
  pose proof (Z.quot_rem' offset 60) as Hq. rewrite Hrem in Hq.
  set (zone := Z.quot offset 60) in *.
  set (a := Z.abs zone).
  assert (Ha : 0 < a < 6000) by lia.
  rewrite (Z.quot_div_nonneg a 60), (Z.rem_mod_nonneg a 60) by lia.
  pose proof (Z.mod_pos_bound a 60 ltac:(lia)) as Hmb.
  assert (Hh : 0 <= a / 60 < 100).
  { split; [apply Z.div_pos; lia|]. apply Z.div_lt_upper_bound; lia. }
  rewrite len_cons, len_app, len_cons.
  rewrite !appendInt_length
    by (try lia; change (10 ^ Z.of_nat 2) with 100; lia).
  lia.
Qed.

Lemma AppendFormat_length (x : Time) (layout : Layout) :
  validTime x -> minuteZone (zoneOffset (Loc x)) ->
  20 <= len (AppendFormat x layout) <= len (bytes (layoutText layout)).
Proof.
  intros (HY & HM & HD & Hh & Hm & Hs & Hns) Hz.
  pose proof (daysIn_max (Month x) (Year x)) as Hmax.
  unfold AppendFormat.
  repeat (rewrite len_app || rewrite len_cons).
  rewrite !appendInt_length
    by (try lia; try change (10 ^ Z.of_nat 2) with 100;
        try change (10 ^ Z.of_nat 4) with 10000; lia).
  rewrite (appendZone_length _ Hz).
  pose proof (appendNano_length (fractionDigits layout) (Nanosecond x)
                (fractionDigits_max layout) Hns) as Hn.
  pose proof (len_nonneg (appendNano (Nanosecond x)
                                     (fractionDigits layout))) as H0.
  destruct (zoneOffset (Loc x) =? 0); destruct layout;
    cbn [fractionDigits layoutText] in *; cbv beta iota in Hn;
    match goal with
    | |- context [len (bytes ?t)] =>
      let v := eval vm_compute in (len (bytes t)) in
      change (len (bytes t)) with v
    end; lia.
Qed.

(** X10: the text never outgrows the buffer made for it.  For every such
    instant and every layout the result of MarshalText is at least 20 bytes
    long and at most as long as the layout, which is the capacity that
    MarshalText allocates. *)
Theorem text_fits_layout (x : Time) (layout : Layout) (b : list byte) :
  validTime x -> minuteZone (zoneOffset (Loc x)) ->
  MarshalText x layout = inr b ->
  20 <= len b <= len (bytes (layoutText layout)).
Proof.
  intros V Hz. unfold MarshalText.
  destruct ((Year x <? 0) || (10000 <=? Year x)); [discriminate|].
  intros H. injection H as <-. apply AppendFormat_length; assumption.
Qed.

Lemma text_fits_layout_witness :
  20 <= len (bytes "2017-04-26T11:13:04.123456789-05:30")
  <= len (bytes (layoutText RFC3339Nano)).
Proof.
  apply (text_fits_layout
           (Date 2017 4 26 11 13 4 123456789
                 (FixedZone (bytes "-05:30") (-19800))) RFC3339Nano).
  - unfold validTime. cbn. lia.
  - unfold minuteZone. cbn. lia.
  - reflexivity.
Defined.

(** ** The decoders *)

Lemma Parse_not_ErrNotString (inp : list byte) :
  Parse inp <> inl ErrNotString.
Proof.
  unfold Parse.
  destruct (Scan.fields inp) as [e|st] eqn:F.
  - intros H. injection H as ->. apply Scan_fields_scanError in F.
    destruct F.
  - destruct ((Scan.fraction st <? 0) || (1000000000 <=? Scan.fraction st));
      [discriminate|].
    destruct (validate inp st); discriminate.
Qed.

Lemma null_length (b : list byte) : len b <> 4 -> null b = false.
Proof.
  intros H. unfold null. destruct (len b =? 4) eqn:E; [lia | reflexivity].
Qed.

Lemma len_quoted (s : list byte) : len (quote :: s ++ [quote]) = len s + 2.
Proof.
  rewrite len_cons, len_app. change (len [quote]) with 1. lia.
Qed.

(** X11: a payload between two quote characters, unless its four bytes are
    taken for null, is decoded from what stands between the quotes, and the
    two decoders differ on an error.  When Parse accepts the interior both
    UnmarshalJSON and UnmarshalText store its value and return no error;
    when Parse fails both return its error, UnmarshalText leaving the
    destination as it was and UnmarshalJSON overwriting it with the zero
    time. *)
Theorem quoted_payload_decoding (t : Time) (s : list byte) :
  len s <> 2 ->
  (forall y, Parse s = inr y ->
             UnmarshalJSON t (quote :: s ++ [quote]) = Returns (y, None)
             /\ UnmarshalText t s = (y, None))
  /\ (forall e, Parse s = inl e ->
                UnmarshalJSON t (quote :: s ++ [quote])
                = Returns (zeroTime, Some e)
                /\ UnmarshalText t s = (t, Some e)).
Proof.
  intros H2.
  assert (N : null (quote :: s ++ [quote]) = false)
    by (apply null_length; rewrite len_quoted; lia).
  split; intros r Hr; rewrite (UnmarshalJSON_quoted t s N);
    unfold UnmarshalText; rewrite Hr; split; reflexivity.
Qed.

Lemma quoted_payload_decoding_witness :
  UnmarshalJSON zeroTime (quote :: bytes "2001-11-13" ++ [quote])
  = Returns (Date 2001 11 13 0 0 0 0 UTC, None)
  /\ UnmarshalText zeroTime (bytes "2001-11-13")
     = (Date 2001 11 13 0 0 0 0 UTC, None).
Proof.
  exact (proj1 (quoted_payload_decoding zeroTime (bytes "2001-11-13")
                  ltac:(vm_compute; discriminate))
               (Date 2001 11 13 0 0 0 0 UTC) eq_refl).
Defined.

(** X12: ErrNotString is returned for the payloads that are neither taken
    for null nor held between two quote characters, and for no other: the
    destination is left as it was, and Parse, which never returns this
    error, is not run. *)
Theorem not_string_iff (t t' : Time) (b : list byte) :
  UnmarshalJSON t b = Returns (t', Some ErrNotString)
  <-> null b = false
      /\ ~ (0 < len b /\ bval (at_ b 0) = 34
            /\ bval (at_ b (len b - 1)) = 34)
      /\ t' = t.
Proof.
  unfold UnmarshalJSON. destruct (null b).
  { split; [discriminate | intros (H & _); discriminate]. }
  destruct ((0 <? len b) && (bval (at_ b 0) =? 34)
            && (bval (at_ b (len b - 1)) =? 34)) eqn:C.
  - split.
    + destruct (slice b 1 (len b - 1)) as [b'|]; [|discriminate].
      destruct (Parse b') as [e|y] eqn:P; [|discriminate].
      intros H. injection H as _ ->.
      exfalso. exact (Parse_not_ErrNotString b' P).
    + intros (_ & H & _). exfalso. apply H. lia.
  - split.
    + intros H. injection H as <-.
      split; [reflexivity|]. split; [lia | reflexivity].
    + intros (_ & _ & ->). reflexivity.
Qed.

(** X13: the two codecs agree and undo each other.  For every such instant
    and every layout, MarshalJSON gives the text of MarshalText between two
    quote characters, and UnmarshalJSON of the one and UnmarshalText of the
    other store the same value, the one that Parse returns for the text,
    whatever the destination held, and return no error. *)
Theorem codecs_round_trip (x t : Time) (layout : Layout) :
  validTime x -> minuteZone (zoneOffset (Loc x)) ->
  exists b y,
    MarshalText x layout = inr b
    /\ MarshalJSON x layout = inr (quote :: b ++ [quote])
    /\ Parse b = inr y
    /\ UnmarshalText t b = (y, None)
    /\ UnmarshalJSON t (quote :: b ++ [quote]) = Returns (y, None).
Proof.
  intros V Hz.
  destruct (Parse_AppendFormat x layout V Hz) as (l & HP & _).
  pose proof (AppendFormat_length x layout V Hz) as [L _].
  destruct V as (HY & _).
  unfold MarshalText, MarshalJSON.
  destruct ((Year x <? 0) || (10000 <=? Year x)) eqn:EY; [lia|].
  eexists _, _. split; [reflexivity|]. split; [reflexivity|].
  split; [exact HP|]. split.
  - unfold UnmarshalText. rewrite HP. reflexivity.
  - rewrite UnmarshalJSON_quoted
      by (apply null_length; rewrite len_quoted; lia).
    rewrite HP. reflexivity.
Qed.

Lemma codecs_round_trip_witness :
  exists b y,
    MarshalText (Date 2017 4 26 11 13 4 123456789 UTC) RFC3339Nano = inr b
    /\ MarshalJSON (Date 2017 4 26 11 13 4 123456789 UTC) RFC3339Nano
       = inr (quote :: b ++ [quote])
    /\ Parse b = inr y
    /\ UnmarshalText zeroTime b = (y, None)
    /\ UnmarshalJSON zeroTime (quote :: b ++ [quote]) = Returns (y, None).
Proof.
  apply (codecs_round_trip (Date 2017 4 26 11 13 4 123456789 UTC) zeroTime
           RFC3339Nano).
  - unfold validTime. cbn. lia.
  - unfold minuteZone. cbn. lia.
Defined.
